(** * fetch_python.py: catalog builder, task planner and download engine

    A shallow embedding of [src/fetch_python.py].  The operating system,
    the network and the thread pool are the program's environment:

    - the file system is a finite map from path strings to nodes (regular
      file with its contents, or directory); paths are compared as strings,
      without normalisation, and [os.path] is the POSIX flavour;
    - what the operating system refuses is an input too: the creation of
      a directory (per path, in the world), the opening of a destination
      and the removal of a file (per call, in the [response]);
    - what the network answers is an input of the run: one [api_response]
      for the release request and one [response] per submitted transfer;
    - console output and network requests are recorded in the [world], so
      that statements about what a run prints or fetches are statements
      about these logs;
    - [ThreadPoolExecutor] is a transition system over a FIFO work queue,
      a set of busy workers and the completed futures; the interleaving is
      chosen by a schedule, an arbitrary list of numbers. *)

From Stdlib Require Import ZArith Lia Ascii String.
From stdpp Require Import gmap strings list fin_maps.

Open Scope string_scope.
Open Scope list_scope.

(** ** Strings and paths *)

(** Python's [needle in hay] on two [str] values. *)
Fixpoint contains (needle hay : string) : bool :=
  String.prefix needle hay ||
  match hay with
  | EmptyString => false
  | String _ rest => contains needle rest
  end.

(** [str.startswith] and [str.endswith]. *)
Definition startswith (s p : string) : bool := String.prefix p s.

Definition endswith (s p : string) : bool :=
  String.prefix (String.rev p) (String.rev s).

(** [posixpath.join] with two arguments. *)
Definition path_join2 (path b : string) : string :=
  if startswith b "/" then b
  else if (String.eqb path "" || endswith path "/")%bool then path +:+ b
  else path +:+ "/" +:+ b.

(** [os.path.join(a, *p)]. *)
Definition os_path_join (a : string) (p : list string) : string :=
  fold_left path_join2 p a.

(** Truth value of a [str]. *)
Definition truthy (s : string) : bool := negb (String.eqb s "").

(** The ancestors of a path, shortest first: the prefixes that end just
    before a separator. *)
Fixpoint ancestors_from (acc rest : string) : list string :=
  match rest with
  | EmptyString => []
  | String c rest' =>
      (if (Ascii.eqb c "/"%char && truthy acc && negb (endswith acc "/"))%bool
       then [acc] else [])
      ++ ancestors_from (acc +:+ String c EmptyString) rest'
  end.

Definition path_chain (p : string) : list string :=
  ancestors_from "" p ++ [p].

(** The directory a path is an entry of; [None] for an entry of the
    working directory or of the root. *)
Definition parent_of (p : string) : option string :=
  last (ancestors_from "" p).

(** ** Exceptions *)

Inductive exn :=
  | URLError
  | TimeoutError
  | JSONDecodeError
  | PayloadError          (* AttributeError, TypeError, KeyError while walking the payload *)
  | ContentTooShortError
  | IsADirectoryError
  | NotADirectoryError
  | FileExistsError
  | FileNotFoundError
  | PermissionError
  | OSError               (* any other refusal: disk full, read-only file system *)
  | ValueError.

(** ** The catalog *)

(** A Python [dict] with string keys: insertion order is kept, keys are
    unique, assignment to a present key updates in place. *)
Definition dict (V : Type) := list (string * V).

Fixpoint dict_get {V} (k : string) (d : dict V) : option V :=
  match d with
  | [] => None
  | (k', v) :: d' => if String.eqb k k' then Some v else dict_get k d'
  end.

Definition dict_mem {V} (k : string) (d : dict V) : bool :=
  match dict_get k d with Some _ => true | None => false end.

Fixpoint dict_set {V} (k : string) (v : V) (d : dict V) : dict V :=
  match d with
  | [] => [(k, v)]
  | (k', v') :: d' =>
      if String.eqb k k' then (k, v) :: d' else (k', v') :: dict_set k v d'
  end.

Definition dict_keys {V} (d : dict V) : list string := map fst d.

Record descriptor := {
  filename : string;
  platform : string;
  url : string;
  sha256 : option string
}.

Definition version_map := dict (list descriptor).
Definition catalog := dict version_map.

(** ** The world: file system, console, network log *)

Inductive node :=
  | NFile (data : string)
  | NDir.

Inductive request :=
  | GetLatestRelease
  | Retrieve (src dst : string).

(** One constructor per message the program prints. *)
Inductive event :=
  | EvFetching (systems : list string)
  | EvFetchError (e : exn)                 (* stderr, fetch_python_versions *)
  | EvFetchFailed                          (* stdout, main *)
  | EvRule
  | EvJson (c : catalog)
  | EvBlank
  | EvSkip (name : string)                 (* "already present" notice *)
  | EvNothing                              (* nothing to download *)
  | EvPreparing (total : nat) (workers : Z)
  | EvStart (name : string)
  | EvDone (name : string)
  | EvFail (name : string) (e : exn)       (* stderr, download_single_file *)
  | EvSummary (success_count failed_count : nat)
  | EvStatsHeader
  | EvStat (system : string) (count : nat).

(** [mkdir_refused] holds, for the paths at which the operating system
    refuses to create a directory, the error it raises there (a
    read-only parent directory, a full disk). *)
Record world := {
  fs : gmap string node;
  out : list event;
  net : list request;
  mkdir_refused : gmap string exn
}.

Definition set_fs (f : gmap string node) (w : world) : world :=
  {| fs := f; out := out w; net := net w; mkdir_refused := mkdir_refused w |}.

(** [print] and [thread_safe_print]: the lock makes each line atomic. *)
Definition thread_safe_print (e : event) (w : world) : world :=
  {| fs := fs w; out := out w ++ [e]; net := net w;
     mkdir_refused := mkdir_refused w |}.

Definition send (r : request) (w : world) : world :=
  {| fs := fs w; out := out w; net := net w ++ [r];
     mkdir_refused := mkdir_refused w |}.

(** [os.path.exists]: true of files and of directories. *)
Definition os_path_exists (p : string) (w : world) : bool :=
  match fs w !! p with Some _ => true | None => false end.

(** What the environment does with one call of [download_single_file]:
    how the transfer ends, and whether the operating system refuses to
    unlink the destination (a read-only directory, a file held open by
    another process). *)
Inductive transfer :=
  | Complete (data : string)               (* every byte written *)
  | FailsBeforeWrite (e : exn)             (* urlopen raised, or open was refused *)
  | BreaksAfterWrite (partial : string).   (* raised after the file was opened *)

Record response := {
  xfer : transfer;
  unlink_denied : bool
}.

(** [open(path, 'wb')]: the error the file system itself gives, if any.
    The directory of the destination must exist and be a directory, and
    the destination must not be a directory. *)
Definition open_error (dst : string) (f : gmap string node) : option exn :=
  match parent_of dst with
  | Some q =>
      match f !! q with
      | None => Some FileNotFoundError
      | Some (NFile _) => Some NotADirectoryError
      | Some NDir =>
          match f !! dst with
          | Some NDir => Some IsADirectoryError
          | _ => None
          end
      end
  | None =>
      match f !! dst with
      | Some NDir => Some IsADirectoryError
      | _ => None
      end
  end.

Arguments open_error : simpl never.

(** [urllib.request.urlretrieve(url, path)]: opens the URL, then opens the
    destination for writing (which truncates it), then copies. *)
Definition urlretrieve (r : transfer) (src dst : string) (w : world)
  : world * option exn :=
  let w := send (Retrieve src dst) w in
  match r with
  | FailsBeforeWrite e => (w, Some e)
  | Complete d =>
      match open_error dst (fs w) with
      | Some e => (w, Some e)
      | None => (set_fs (<[dst := NFile d]> (fs w)) w, None)
      end
  | BreaksAfterWrite d =>
      match open_error dst (fs w) with
      | Some e => (w, Some e)
      | None =>
          (set_fs (<[dst := NFile d]> (fs w)) w, Some ContentTooShortError)
      end
  end.

(** [os.remove]. *)
Definition os_remove (denied : bool) (p : string) (w : world)
  : world * option exn :=
  match fs w !! p with
  | None => (w, Some FileNotFoundError)
  | Some NDir => (w, Some IsADirectoryError)
  | Some (NFile _) =>
      if denied then (w, Some PermissionError)
      else (set_fs (delete p (fs w)) w, None)
  end.

(** ** download_single_file *)

Definition download_single_file (r : response) (src save_path name : string)
  (w : world) : world * (bool * string) :=
  let w := thread_safe_print (EvStart name) w in
  match urlretrieve (xfer r) src save_path w with
  | (w, None) =>
      let w := thread_safe_print (EvDone name) w in
      (w, (true, name))
  | (w, Some e) =>
      let w := thread_safe_print (EvFail name e) w in
      let w :=
        if os_path_exists save_path w then
          (* try: os.remove(save_path)  except: pass *)
          fst (os_remove (unlink_denied r) save_path w)
        else w in
      (w, (false, name))
  end.

(** ** Module constants *)

Definition BASE_DIR : string := "downloads".
Definition SYSTEMS : list string := ["Linux"; "macOS"; "Windows"].
Definition MAX_WORKERS : Z := 8.

(** ** fetch_python_versions *)

(** The release payload, with the fields the program reads.  Every field
    is read with [.get(key, default)], so each may be missing. *)
Record asset := {
  asset_name : option string;
  browser_download_url : option string
}.

Record release := {
  tag_name : option string;
  assets : option (list asset)
}.

(** What [urlopen] followed by [json.loads] yields: an exception (network
    error, timeout, undecodable body, payload of another shape) or a
    release. *)
Inductive api_response :=
  | ApiFails (e : exn)
  | ApiRelease (r : release).

(** Lines 53-73: the platform family and the architecture label read off
    the file name. *)
Definition classify (name : string) : option string * string :=
  if contains "unknown-linux-gnu" name then
    (Some "Linux",
     if contains "x86_64" name then "x86_64"
     else if contains "aarch64" name then "aarch64"
     else "")
  else if contains "apple-darwin" name then
    (Some "macOS",
     if contains "x86_64" name then "x86_64"
     else if contains "aarch64" name then "aarch64 (Apple Silicon)"
     else "")
  else if contains "pc-windows" name then
    (Some "Windows",
     if contains "x86_64" name then "x86_64"
     else if contains "i686" name then "i686"
     else "")
  else (None, "").

(** Lines 75-85; [None] is a [KeyError]. *)
Definition record_asset (version system : string) (d : descriptor)
  (result : catalog) : option catalog :=
  match dict_get system result with
  | None => None
  | Some versions =>
      let versions :=
        if dict_mem version versions then versions
        else dict_set version [] versions in
      match dict_get version versions with
      | None => None
      | Some files =>
          Some (dict_set system (dict_set version (files ++ [d]) versions) result)
      end
  end.

(** One turn of the loop over the assets (lines 46-85). *)
Definition add_asset (version : string) (result : catalog) (a : asset)
  : option catalog :=
  let name := default "" (asset_name a) in
  if negb (contains "install_only.tar.gz" name) then Some result
  else
    let download_url := default "" (browser_download_url a) in
    match classify name with
    | (Some system, platform_info) =>
        if (truthy system && truthy platform_info)%bool then
          record_asset version system
            {| filename := name; platform := platform_info;
               url := download_url; sha256 := None |} result
        else Some result
    | (None, _) => Some result
    end.

Fixpoint add_assets (version : string) (l : list asset) (result : catalog)
  : option catalog :=
  match l with
  | [] => Some result
  | a :: l' =>
      match add_asset version result a with
      | Some result' => add_assets version l' result'
      | None => None
      end
  end.

Definition print (e : event) (w : world) : world := thread_safe_print e w.

Definition fetch_python_versions (resp : api_response) (w : world)
  : world * option catalog :=
  let w := send GetLatestRelease w in
  match resp with
  | ApiFails e => (print (EvFetchError e) w, None)
  | ApiRelease rel =>
      let result : catalog := map (fun sys => (sys, [])) SYSTEMS in
      let version := default "" (tag_name rel) in
      if negb (truthy version) then (w, Some result)
      else
        match add_assets version (default [] (assets rel)) result with
        | Some result => (w, Some result)
        | None => (print (EvFetchError PayloadError) w, None)
        end
  end.

(** ** os.makedirs *)

(** [os.mkdir] under [exist_ok=True]: a directory already there is fine
    whatever the call answers, a regular file in the way is an error, and
    the creation of a missing directory may be refused. *)
Definition mkdir_exist_ok (leaf : bool) (p : string) (w : world)
  : world * option exn :=
  match fs w !! p with
  | None =>
      match mkdir_refused w !! p with
      | Some e => (w, Some e)
      | None => (set_fs (<[p := NDir]> (fs w)) w, None)
      end
  | Some NDir => (w, None)
  | Some (NFile _) =>
      (w, Some (if leaf then FileExistsError else NotADirectoryError))
  end.

Fixpoint makedirs_chain (chain : list string) (w : world)
  : world * option exn :=
  match chain with
  | [] => (w, None)
  | p :: rest =>
      match mkdir_exist_ok (match rest with [] => true | _ => false end) p w with
      | (w, None) => makedirs_chain rest w
      | (w, Some e) => (w, Some e)
      end
  end.

(** [os.makedirs(path, exist_ok=True)] on a file system in which every
    existing path has directories for ancestors: creates what is missing
    along the chain, raises at a regular file and where the creation is
    refused. *)
Definition os_makedirs (p : string) (w : world) : world * option exn :=
  makedirs_chain (path_chain p) w.

(** ** The task planner (download_files, lines 115-147) *)

(** [(url, save_path, filename)] *)
Definition task : Type := string * string * string.

Definition task_path (t : task) : string := snd (fst t).

Record plan := {
  sha_tasks : list task;
  download_tasks : list task;
  plan_world : world
}.

Inductive outcome (A : Type) :=
  | Ok (a : A)
  | Raised (e : exn) (w : world).
Arguments Ok {A} a.
Arguments Raised {A} e w.

Fixpoint for_each {A S : Type} (body : S -> A -> outcome S) (l : list A) (s : S)
  : outcome S :=
  match l with
  | [] => Ok s
  | x :: l' =>
      match body s x with
      | Ok s' => for_each body l' s'
      | Raised e w => Raised e w
      end
  end.

Definition folder_of (system : string) : string :=
  os_path_join BASE_DIR [system; "Python"].

Definition sha_name (version : string) : string :=
  "SHA256SUMS-" +:+ version +:+ ".txt".

Definition sha_source (version : string) : string :=
  "https://github.com/astral-sh/python-build-standalone/releases/download/"
  +:+ version +:+ "/SHA256SUMS".

(** Lines 138-147. *)
Definition plan_item (folder_path : string) (st : plan) (item : descriptor)
  : plan :=
  let save_path := os_path_join folder_path [filename item] in
  if os_path_exists save_path (plan_world st) then
    {| sha_tasks := sha_tasks st;
       download_tasks := download_tasks st;
       plan_world := thread_safe_print (EvSkip (filename item)) (plan_world st) |}
  else
    {| sha_tasks := sha_tasks st;
       download_tasks := download_tasks st ++ [(url item, save_path, filename item)];
       plan_world := plan_world st |}.

(** Lines 123-147. *)
Definition plan_version (system : string) (st : plan)
  (entry : string * list descriptor) : outcome plan :=
  let '(version, files) := entry in
  let folder_path := folder_of system in
  match os_makedirs folder_path (plan_world st) with
  | (w, Some e) => Raised e w
  | (w, None) =>
      let sha_filename := sha_name version in
      let sha_url := sha_source version in
      let sha_path := os_path_join folder_path [sha_filename] in
      let st :=
        if negb (os_path_exists sha_path w) then
          {| sha_tasks := sha_tasks st ++ [(sha_url, sha_path, sha_filename)];
             download_tasks := download_tasks st;
             plan_world := w |}
        else
          {| sha_tasks := sha_tasks st;
             download_tasks := download_tasks st;
             plan_world := thread_safe_print (EvSkip sha_filename) w |} in
      Ok (fold_left (plan_item folder_path) files st)
  end.

(** Lines 119-147. *)
Definition plan_system (versions_data : catalog) (st : plan) (system : string)
  : outcome plan :=
  match dict_get system versions_data with
  | None => Ok st
  | Some versions => for_each (plan_version system) versions st
  end.

Definition plan_tasks (versions_data : catalog)
  (systems_to_download : list string) (w : world) : outcome plan :=
  for_each (plan_system versions_data) systems_to_download
    {| sha_tasks := []; download_tasks := []; plan_world := w |}.

(** ** The thread pool (download_files, lines 159-183) *)

(** [queue]: submitted work items no worker has picked up yet, oldest
    first, each with its position in [futures]; [running]: the items the
    busy workers hold; [completed]: the finished futures with what
    [download_single_file] returned, in order of completion, as
    [as_completed] yields them. *)
Record pool := {
  queue : list (nat * task);
  running : list (nat * task);
  completed : list (nat * (bool * string));
  pool_world : world
}.

(** [executor.submit(download_single_file, url, save_path, filename)]:
    the call a worker makes for one work item. *)
Definition run_task (r : response) (t : task) (w : world)
  : world * (bool * string) :=
  let '(src, save_path, name) := t in
  download_single_file r src save_path name w.

Inductive action :=
  | Start                (* an idle worker takes the oldest queued item *)
  | Finish (slot : nat). (* the worker in this slot returns from its call *)

(** Lines 165-173: the manifest tasks are submitted, then the others. *)
Definition submit_all (sha_tasks download_tasks : list task) (w : world) : pool :=
  let futures := sha_tasks ++ download_tasks in
  {| queue := zip (seq 0 (length futures)) futures;
     running := [];
     completed := [];
     pool_world := w |}.

(** A worker may start an item while fewer than [max_workers] are busy. *)
Definition can_start (max_workers : Z) (st : pool) : bool :=
  match queue st with
  | [] => false
  | _ :: _ => (Z.of_nat (length (running st)) <? max_workers)%Z
  end.

Definition enabled (max_workers : Z) (st : pool) : list action :=
  (if can_start max_workers st then [Start] else [])
  ++ map Finish (seq 0 (length (running st))).

(** The call of [download_single_file] a worker makes is one atomic step
    on the shared world, taken when the worker finishes. *)
Definition perform (env : nat -> response) (a : action) (st : pool) : pool :=
  match a with
  | Start =>
      match queue st with
      | [] => st
      | item :: rest =>
          {| queue := rest;
             running := running st ++ [item];
             completed := completed st;
             pool_world := pool_world st |}
      end
  | Finish slot =>
      match running st !! slot with
      | None => st
      | Some (i, t) =>
          let '(w, res) := run_task (env i) t (pool_world st) in
          {| queue := queue st;
             running := delete slot (running st);
             completed := completed st ++ [(i, res)];
             pool_world := w |}
      end
  end.

(** One step: the scheduler's number picks among the enabled actions. *)
Definition pool_step (max_workers : Z) (env : nat -> response) (choice : nat)
  (st : pool) : pool :=
  match enabled max_workers st with
  | [] => st
  | a :: l => perform env (nth choice (a :: l) a) st
  end.

Fixpoint pool_run (max_workers : Z) (env : nat -> response) (sched : list nat)
  (steps : nat) (st : pool) : pool :=
  match steps with
  | O => st
  | S steps' =>
      pool_run max_workers env (tail sched) steps'
        (pool_step max_workers env (hd 0 sched) st)
  end.

(** Lines 176-181: the loop over [as_completed(futures)]. *)
Definition tally (results : list (nat * (bool * string))) : nat * nat :=
  fold_left
    (fun '(success_count, failed_count) '(_, (success, _)) =>
       if success : bool then (S success_count, failed_count)
       else (success_count, S failed_count))
    results (0, 0).

Inductive run_result :=
  | Returned (w : world)
  | Uncaught (e : exn) (w : world).

Definition world_of (r : run_result) : world :=
  match r with Returned w => w | Uncaught _ w => w end.

(** Lines 159-183.  The constructor of the pool raises [ValueError] on a
    bound that is not positive; leaving the [with] block waits for every
    worker, here the [2 * n] steps that [n] items need. *)
Definition download_engine (sha_tasks download_tasks : list task)
  (max_workers : Z) (env : nat -> response) (sched : list nat) (w : world)
  : run_result :=
  if (max_workers <=? 0)%Z then Uncaught ValueError w
  else
    let st0 := submit_all sha_tasks download_tasks w in
    let st := pool_run max_workers env sched (2 * length (queue st0)) st0 in
    let '(success_count, failed_count) := tally (completed st) in
    Returned (thread_safe_print (EvSummary success_count failed_count)
                (pool_world st)).

(** ** download_files *)

Definition download_files (versions_data : catalog)
  (systems_to_download : list string) (max_workers : Z)
  (env : nat -> response) (sched : list nat) (w : world) : run_result :=
  match plan_tasks versions_data systems_to_download w with
  | Raised e w => Uncaught e w
  | Ok st =>
      let total_tasks := length (sha_tasks st) + length (download_tasks st) in
      if Nat.eqb total_tasks 0 then
        Returned (thread_safe_print EvNothing (plan_world st))
      else
        let w := thread_safe_print (EvPreparing total_tasks max_workers)
                   (plan_world st) in
        download_engine (sha_tasks st) (download_tasks st) max_workers env sched w
  end.

(** ** main *)

(** [--system] is restricted by [choices]; [--workers] is any integer. *)
Inductive system_choice := OnlyLinux | OnlyMacOS | OnlyWindows | AllSystems.

Record args := {
  arg_system : system_choice;
  arg_workers : Z
}.

Definition selected (a : args) : list string :=
  match arg_system a with
  | AllSystems => SYSTEMS
  | OnlyLinux => ["Linux"]
  | OnlyMacOS => ["macOS"]
  | OnlyWindows => ["Windows"]
  end.

(** How the process ends. *)
Inductive exit :=
  | ExitNormal                 (* main returned *)
  | SysExit (code : Z)         (* sys.exit(code) *)
  | Traceback (e : exn).       (* an exception reached the top level *)

Definition exit_status (x : exit) : Z :=
  match x with
  | ExitNormal => 0
  | SysExit code => code
  | Traceback _ => 1
  end.

(** Lines 215-217. *)
Definition filter_systems (versions_data : catalog) (systems : list string)
  : catalog :=
  fold_left
    (fun acc sys =>
       match dict_get sys versions_data with
       | Some v => dict_set sys v acc
       | None => acc
       end)
    systems [].

(** Lines 230-233: one turn of the loop over the selected systems. *)
Definition print_stat (versions_data : catalog) (w : world) (system : string)
  : world :=
  match dict_get system versions_data with
  | Some versions =>
      print (EvStat system (list_sum (map (fun e => length (snd e)) versions))) w
  | None => w
  end.

(** Lines 229-233. *)
Definition print_stats (versions_data : catalog) (systems : list string)
  (w : world) : world :=
  fold_left (print_stat versions_data) systems (print EvStatsHeader w).

(** The inputs of a run that the program does not control. *)
Record environment := {
  api : api_response;
  transfers : nat -> response;
  schedule : list nat
}.

Definition main (a : args) (env : environment) (w : world) : world * exit :=
  let systems_to_download := selected a in
  let w := print (EvFetching systems_to_download) w in
  let '(w, versions_data) := fetch_python_versions (api env) w in
  match versions_data with
  | None => (print EvFetchFailed w, SysExit 1)
  | Some [] => (print EvFetchFailed w, SysExit 1)      (* an empty dict is falsy *)
  | Some versions_data =>
      let filtered_data := filter_systems versions_data systems_to_download in
      let w := print EvRule w in
      let w := print (EvJson filtered_data) w in
      let w := print EvRule w in
      let w := print EvBlank w in
      match download_files versions_data systems_to_download (arg_workers a)
              (transfers env) (schedule env) w with
      | Uncaught e w => (w, Traceback e)
      | Returned w =>
          (print_stats versions_data systems_to_download w, ExitNormal)
      end
  end.

(** ** The scenario of the specification *)

Definition artifact_v1 : descriptor :=
  {| filename := "py-v1-x86_64.tar.gz"; platform := "x86_64";
     url := "http://x/a"; sha256 := None |}.

Definition scenario_catalog : catalog :=
  [("Linux", [("v1", [artifact_v1])]); ("macOS", []); ("Windows", [])].

Definition empty_world : world :=
  {| fs := ∅; out := []; net := []; mkdir_refused := ∅ |}.

(** The download tree of Linux, empty. *)
Definition tree_ready : world :=
  {| fs := <["downloads/Linux/Python" := NDir]>
           (<["downloads/Linux" := NDir]>
            (<["downloads" := NDir]> ∅));
     out := []; net := []; mkdir_refused := ∅ |}.

(** A directory [downloads] and nothing in it. *)
Definition downloads_ready : world :=
  {| fs := <["downloads" := NDir]> ∅; out := []; net := [];
     mkdir_refused := ∅ |}.

(** A working directory in which nothing can be created. *)
Definition read_only_world : world :=
  {| fs := ∅; out := []; net := [];
     mkdir_refused := <["downloads" := PermissionError]> ∅ |}.

Definition manifest_v1 : task :=
  (sha_source "v1", "downloads/Linux/Python/SHA256SUMS-v1.txt",
   "SHA256SUMS-v1.txt").

Definition artifact_task_v1 : task :=
  ("http://x/a", "downloads/Linux/Python/py-v1-x86_64.tar.gz",
   "py-v1-x86_64.tar.gz").

(** The same scenario after an earlier run left the artifact behind. *)
Definition artifact_present : world :=
  {| fs := <["downloads/Linux/Python/py-v1-x86_64.tar.gz" := NFile "old"]>
           (<["downloads/Linux/Python" := NDir]>
            (<["downloads/Linux" := NDir]>
             (<["downloads" := NDir]> ∅)));
     out := []; net := []; mkdir_refused := ∅ |}.

Definition all_complete (i : nat) : response :=
  {| xfer := Complete "bytes"; unlink_denied := false |}.

(** A network on which the manifest arrives and the artifact breaks. *)
Definition artifact_fails (i : nat) : response :=
  if Nat.eqb i 1 then {| xfer := BreaksAfterWrite "par"; unlink_denied := false |}
  else {| xfer := Complete "bytes"; unlink_denied := false |}.

Definition artifact_release : release :=
  {| tag_name := Some "v1";
     assets := Some [ {| asset_name :=
                           Some "py-v1-x86_64-unknown-linux-gnu-install_only.tar.gz";
                         browser_download_url := Some "http://x/a" |} ] |}.

Definition linux_8 : args := {| arg_system := OnlyLinux; arg_workers := 8 |}.

(** A transfer that breaks midway, with and without a refused removal. *)
Definition broken_removable : response :=
  {| xfer := BreaksAfterWrite "par"; unlink_denied := false |}.

Definition broken_undeletable : response :=
  {| xfer := BreaksAfterWrite "par"; unlink_denied := true |}.

(** Ten work items, one manifest and nine artifacts, with a network that
    fails every other transfer and a scheduler that hops around. *)
Definition named_task (name : string) : task :=
  ("http://x/" +:+ name, "downloads/Linux/Python/" +:+ name, name).

Definition one_manifest : list task := [named_task "SHA256SUMS-v1.txt"].

Definition nine_artifacts : list task :=
  named_task <$> ["a"; "b"; "c"; "d"; "e"; "f"; "g"; "h"; "i"].

Definition flaky (i : nat) : response :=
  if Nat.even i then {| xfer := Complete "bytes"; unlink_denied := false |}
  else broken_removable.

Definition hopping : list nat := [0; 0; 0; 2; 0; 1; 3; 0; 2; 1; 0; 0; 3; 1].

(** A release in which one asset carries the marker in the middle of its
    name: the checksum file published next to an archive. *)
Definition sidecar_name : string :=
  "cpython-3.12.1+20240107-x86_64-unknown-linux-gnu-install_only.tar.gz.sha256".

Definition sidecar_release : release :=
  {| tag_name := Some "20240107";
     assets := Some [ {| asset_name := Some sidecar_name;
                         browser_download_url := Some "http://x/s" |} ] |}.

Definition sidecar_descriptor : descriptor :=
  {| filename := sidecar_name; platform := "x86_64";
     url := "http://x/s"; sha256 := None |}.

(** A release with an archive, a source tarball and a checksum list. *)
Definition archive_asset : asset :=
  {| asset_name :=
       Some "cpython-3.12.1+20240107-aarch64-apple-darwin-install_only.tar.gz";
     browser_download_url := Some "http://x/m" |}.

Definition source_asset : asset :=
  {| asset_name := Some "cpython-3.12.1.tar.zst";
     browser_download_url := Some "http://x/src" |}.

Definition mixed_release : release :=
  {| tag_name := Some "20240107";
     assets := Some [archive_asset; source_asset] |}.

Definition untagged_release : release :=
  {| tag_name := None; assets := Some [archive_asset] |}.

(** ** Vocabulary of the statements *)

(** The words of the specification: a file name "matches the fixed
    artifact-naming suffix" when it ends with it. *)
Definition matches_suffix (name : string) : bool :=
  endswith name "install_only.tar.gz".

(** A descriptor is listed under a platform of a catalog. *)
Definition listed (c : catalog) (system : string) (d : descriptor) : Prop :=
  ∃ versions version files,
    (system, versions) ∈ c ∧ (version, files) ∈ versions ∧ d ∈ files.

(** The name and the address [add_asset] reads off an asset. *)
Definition name_of (a : asset) : string := default "" (asset_name a).
Definition address_of (a : asset) : string :=
  default "" (browser_download_url a).

(** What the loop over the assets keeps true of [result]: the keys are the
    platforms, every list of files has an element, and every descriptor
    was made from an asset that carries the marker, a platform marker and
    an architecture marker. *)
Record catalog_inv (payload : list asset) (c : catalog) : Prop := {
  cat_keys : dict_keys c = SYSTEMS;
  cat_nonempty :
    ∀ system versions version files,
      (system, versions) ∈ c → (version, files) ∈ versions → files ≠ [];
  cat_filtered :
    ∀ system d, listed c system d →
      ∃ a, a ∈ payload ∧
        filename d = name_of a ∧ url d = address_of a ∧ sha256 d = None ∧
        contains "install_only.tar.gz" (name_of a) = true ∧
        classify (name_of a) = (Some system, platform d) ∧
        platform d ≠ ""
}.


(** Work left in the pool: two steps for a queued item, one for a running
    one. *)
Definition pool_measure (st : pool) : nat :=
  2 * length (queue st) + length (running st).

(** The positions in [futures] of the items a worker has picked up. *)
Definition started (st : pool) : list nat :=
  (running st).*1 ++ (completed st).*1.

Definition succeeded (results : list (nat * (bool * string))) : nat :=
  length (filter (fun x => fst (snd x) = true) results).

Definition failed (results : list (nat * (bool * string))) : nat :=
  length (filter (fun x => fst (snd x) = false) results).

(** What holds of every state the pool reaches from [submit_all]. *)
Record pool_inv (max_workers : Z) (env : nat -> response)
  (futures : list task) (w0 : world) (st : pool) : Prop := {
  inv_indices :
    (queue st).*1 ++ started st ≡ₚ seq 0 (length futures);
  inv_fifo :
    ∃ k, queue st = drop k (zip (seq 0 (length futures)) futures);
  inv_pending :
    ∀ i t, (i, t) ∈ queue st ++ running st → futures !! i = Some t;
  inv_outcomes :
    ∀ i res, (i, res) ∈ completed st →
      ∃ t, futures !! i = Some t ∧ res = snd (run_task (env i) t w0);
  inv_bound :
    (Z.of_nat (length (running st)) ≤ max_workers)%Z;
  inv_dirs :
    ∀ p, fs (pool_world st) !! p = Some NDir ↔ fs w0 !! p = Some NDir;
  inv_frame :
    ∀ p, (∀ t, t ∈ futures → task_path t ≠ p) →
      fs (pool_world st) !! p = fs w0 !! p
}.

(** Nothing that existed in [w0] was removed, and the destination of every
    completed item exists. *)
Definition keeps_files (futures : list task) (w0 : world) (st : pool) : Prop :=
  (∀ p, is_Some (fs w0 !! p) → is_Some (fs (pool_world st) !! p)) ∧
  (∀ i res t, (i, res) ∈ completed st → futures !! i = Some t →
     is_Some (fs (pool_world st) !! task_path t)).

(** What main prints and sends before it calls download_files on the
    catalog it fetched (lines 208-223). *)
Definition prelude (a : args) (versions_data : catalog) (w : world) : world :=
  print EvBlank
    (print EvRule
       (print (EvJson (filter_systems versions_data (selected a)))
          (print EvRule
             (send GetLatestRelease (print (EvFetching (selected a)) w))))).

(** Planning only ever adds directories to the file system. *)
Definition fs_grows (f f' : gmap string node) : Prop :=
  ∀ q, f' !! q = f !! q ∨ (f !! q = None ∧ f' !! q = Some NDir).

(** The destinations the loops of lines 119-147 test, each with the name
    shown to the user: per selected platform of the catalog and per
    version, the manifest and then every file. *)
Definition destinations_of_version (system : string)
  (entry : string * list descriptor) : list (string * string) :=
  (os_path_join (folder_of system) [sha_name (fst entry)], sha_name (fst entry))
  :: ((fun item => (os_path_join (folder_of system) [filename item],
                    filename item)) <$> snd entry).

Definition destinations_of_system (versions_data : catalog) (system : string)
  : list (string * string) :=
  match dict_get system versions_data with
  | None => []
  | Some versions => versions ≫= destinations_of_version system
  end.

Definition destinations (versions_data : catalog) (systems : list string)
  : list (string * string) :=
  systems ≫= destinations_of_system versions_data.

(** The directories the planner creates: one per selected platform of the
    catalog that has a version. *)
Definition folders_of_system (versions_data : catalog) (system : string)
  : list string :=
  match dict_get system versions_data with
  | None | Some [] => []
  | Some (_ :: _) => [folder_of system]
  end.

Definition folders (versions_data : catalog) (systems : list string)
  : list string :=
  systems ≫= folders_of_system versions_data.

(** Every path along the chains of these directories is a directory. *)
Definition ready (f : gmap string node) (dirs : list string) : Prop :=
  ∀ folder q, folder ∈ dirs → q ∈ path_chain folder → f !! q = Some NDir.

(** A directory cannot be had at this path: a regular file sits there, or
    nothing is there and the creation of a directory is refused. *)
Definition obstructed (w : world) (q : string) : Prop :=
  (∃ d, fs w !! q = Some (NFile d)) ∨
  (fs w !! q = None ∧ is_Some (mkdir_refused w !! q)).

(** Something is in the way of one of these directories. *)
Definition blocked (w : world) (dirs : list string) : Prop :=
  ∃ folder q, folder ∈ dirs ∧ q ∈ path_chain folder ∧ obstructed w q.

(** What a stretch of planning that tests the destinations [dests] does to
    the state of the planner. *)
Record planned (dests : list (string * string)) (st st' : plan) : Prop := {
  pl_net : net (plan_world st') = net (plan_world st);
  pl_refused :
    mkdir_refused (plan_world st') = mkdir_refused (plan_world st);
  pl_fs : fs_grows (fs (plan_world st)) (fs (plan_world st'));
  pl_out :
    ∃ evs, out (plan_world st') = out (plan_world st) ++ evs ∧
      (∀ e, e ∈ evs → ∃ name, e = EvSkip name) ∧
      (∀ p name, (p, name) ∈ dests → is_Some (fs (plan_world st) !! p) →
         EvSkip name ∈ evs);
  pl_tasks :
    ∃ new_sha new_dl,
      sha_tasks st' = sha_tasks st ++ new_sha ∧
      download_tasks st' = download_tasks st ++ new_dl ∧
      (∀ t, t ∈ new_sha ++ new_dl →
         fs (plan_world st) !! task_path t = None ∧
         (task_path t, snd t) ∈ dests) ∧
      (∀ p name, (p, name) ∈ dests →
         is_Some (fs (plan_world st') !! p) ∨
         ∃ t, t ∈ new_sha ++ new_dl ∧ task_path t = p)
}.

(** ** Vocabulary of the further properties *)

(** Lines 47-85 read as a function of one asset: the platform it is filed
    under and the descriptor made of it, if it is kept at all. *)
Definition describe (a : asset) : option (string * descriptor) :=
  if contains "install_only.tar.gz" (name_of a) then
    match classify (name_of a) with
    | (Some system, platform_info) =>
        if (truthy system && truthy platform_info)%bool then
          Some (system,
                {| filename := name_of a; platform := platform_info;
                   url := address_of a; sha256 := None |})
        else None
    | (None, _) => None
    end
  else None.

(** The descriptors of the assets kept for one platform, in the order of
    the payload. *)
Definition kept_for (system : string) (payload : list asset) : list descriptor :=
  omap (fun a => match describe a with
                 | Some (s, d) => if String.eqb s system then Some d else None
                 | None => None
                 end) payload.

(** The version map that holds these files: no key when there is no file. *)
Definition under_version (version : string) (files : list descriptor)
  : version_map :=
  match files with
  | [] => []
  | _ :: _ => [(version, files)]
  end.

(** The request a work item sends. *)
Definition request_of (t : task) : request :=
  Retrieve (fst (fst t)) (task_path t).

(** What every submitted item returns when it is run on its own in the
    world the engine starts in, by position in [futures]. *)
Definition solo_outcomes (env : nat -> response) (futures : list task)
  (w : world) : list (nat * (bool * string)) :=
  (fun i => (i, snd (run_task (env i) (futures !!! i) w)))
    <$> seq 0 (length futures).

(** The requests of the completed items, in order of completion. *)
Definition requests_sent (futures : list task)
  (results : list (nat * (bool * string))) : list request :=
  (fun c => request_of (futures !!! fst c)) <$> results.

(** The manifest task of a version and the artifact task of a descriptor,
    as lines 128-133 and 139-147 build them. *)
Definition manifest_task (system version : string) : task :=
  (sha_source version,
   os_path_join (folder_of system) [sha_name version],
   sha_name version).

Definition artifact_task (system : string) (item : descriptor) : task :=
  (url item, os_path_join (folder_of system) [filename item], filename item).

(** A release with two archives for one platform and one for another. *)
Definition linux_x86_asset : asset :=
  {| asset_name :=
       Some "cpython-3.12.1+20240107-x86_64-unknown-linux-gnu-install_only.tar.gz";
     browser_download_url := Some "http://x/l1" |}.

Definition linux_arm_asset : asset :=
  {| asset_name :=
       Some "cpython-3.12.1+20240107-aarch64-unknown-linux-gnu-install_only.tar.gz";
     browser_download_url := Some "http://x/l2" |}.

Definition three_archives : release :=
  {| tag_name := Some "20240107";
     assets := Some [linux_x86_asset; archive_asset; source_asset;
                     linux_arm_asset] |}.

(** A world in which the destination is a directory, and one in which an
    earlier download left a complete file. *)
Definition directory_in_the_way : world :=
  {| fs := <["downloads/f" := NDir]> (<["downloads" := NDir]> ∅);
     out := []; net := []; mkdir_refused := ∅ |}.

Definition old_file_there : world :=
  {| fs := <["downloads/f" := NFile "old"]> (<["downloads" := NDir]> ∅);
     out := []; net := []; mkdir_refused := ∅ |}.

Definition all_complete_response : response :=
  {| xfer := Complete "bytes"; unlink_denied := false |}.

Definition refused : response :=
  {| xfer := FailsBeforeWrite URLError; unlink_denied := false |}.

(** In this state of the pool every destination of a completed item holds
    what that item leaves there when run alone in [w0], and every path
    that is not such a destination holds what it held in [w0]. *)
Definition settled (env : nat -> response) (futures : list task) (w0 : world)
  (st : pool) : Prop :=
  (∀ i res t, (i, res) ∈ completed st → futures !! i = Some t →
     fs (pool_world st) !! task_path t
     = fs (fst (run_task (env i) t w0)) !! task_path t) ∧
  (∀ p, (∀ i res t, (i, res) ∈ completed st → futures !! i = Some t →
           task_path t ≠ p) →
     fs (pool_world st) !! p = fs w0 !! p).

(** * Properties *)

(** ** download_single_file *)

(** A destination that can be opened is not a directory. *)
Lemma open_error_None (dst : string) (f : gmap string node) :
  open_error dst f = None → f !! dst ≠ Some NDir.
Proof.
  unfold open_error.
  destruct (parent_of dst) as [q|]; [destruct (f !! q) as [[]|]; try done|];
    destruct (f !! dst) as [[]|]; done.
Qed.

(** A path in an existing directory can be opened unless it is a
    directory itself. *)
Lemma open_error_in_dir (dst q : string) (f : gmap string node) :
  parent_of dst = Some q → f !! q = Some NDir → f !! dst ≠ Some NDir →
  open_error dst f = None.
Proof.
  intros Hp Hq Hdst. unfold open_error. rewrite Hp, Hq.
  by destruct (f !! dst) as [[]|].
Qed.

(** Whether a destination can be opened depends only on which paths are
    directories. *)
Lemma open_error_dirs (dst : string) (f f' : gmap string node) :
  (∀ p, f !! p = Some NDir ↔ f' !! p = Some NDir) →
  open_error dst f = None → open_error dst f' = None.
Proof.
  intros Hd. unfold open_error.
  destruct (parent_of dst) as [q|].
  - pose proof (Hd q) as Hq. pose proof (Hd dst) as Hdst.
    destruct (f !! q) as [[]|]; try done.
    destruct Hq as [Hq _]. rewrite (Hq eq_refl).
    destruct (f !! dst) as [[]|], (f' !! dst) as [[]|]; try done;
      by destruct Hdst as [H1 H2]; specialize (H2 eq_refl).
  - pose proof (Hd dst) as Hdst.
    destruct (f !! dst) as [[]|], (f' !! dst) as [[]|]; try done;
      by destruct Hdst as [H1 H2]; specialize (H2 eq_refl).
Qed.

Section SingleFile.
Variables (r : response) (src save_path name : string) (w : world).

(** The returned name is the display name of the task. *)
Lemma single_file_name :
  snd (snd (download_single_file r src save_path name w)) = name.
Proof.
  unfold download_single_file, urlretrieve.
  destruct (xfer r); simpl; try done;
    destruct (open_error save_path (fs w)); done.
Qed.

(** The flag is decided by the answer of the network and by whether the
    destination can be opened for writing, and by nothing else. *)
Lemma single_file_flag :
  fst (snd (download_single_file r src save_path name w)) =
  match xfer r, open_error save_path (fs w) with
  | Complete _, None => true
  | _, _ => false
  end.
Proof.
  unfold download_single_file, urlretrieve.
  destruct (xfer r); simpl; try done;
    destruct (open_error save_path (fs w)); done.
Qed.

(** Exactly one request goes out, whatever happens. *)
Lemma single_file_net :
  net (fst (download_single_file r src save_path name w))
  = net w ++ [Retrieve src save_path].
Proof.
  unfold download_single_file, urlretrieve, os_path_exists, os_remove.
  destruct (xfer r); simpl;
    try destruct (open_error save_path (fs w)); simpl;
    destruct (fs w !! save_path) as [[]|] eqn:E; simpl;
    rewrite ?lookup_insert_eq, ?E; simpl; try done;
    destruct (unlink_denied r); done.
Qed.

(** Only the destination path is written or removed. *)
Lemma single_file_frame p :
  p ≠ save_path →
  fs (fst (download_single_file r src save_path name w)) !! p = fs w !! p.
Proof.
  intros Hp.
  unfold download_single_file, urlretrieve, os_path_exists, os_remove.
  destruct (xfer r); simpl;
    try destruct (open_error save_path (fs w)); simpl;
    destruct (fs w !! save_path) as [[]|] eqn:E; simpl;
    rewrite ?lookup_insert_eq, ?E; simpl;
    try destruct (unlink_denied r); simpl;
    rewrite ?lookup_delete_ne, ?lookup_insert_ne by done; done.
Qed.

(** Directories are neither created nor removed. *)
Lemma single_file_dirs p :
  fs (fst (download_single_file r src save_path name w)) !! p = Some NDir
  ↔ fs w !! p = Some NDir.
Proof.
  destruct (decide (p = save_path)) as [->|Hp];
    [|by rewrite single_file_frame].
  unfold download_single_file, urlretrieve, os_path_exists, os_remove.
  destruct (xfer r); simpl;
    try (destruct (open_error save_path (fs w)) eqn:Eo;
         [|apply open_error_None in Eo]); simpl;
    destruct (fs w !! save_path) as [[]|] eqn:E; simpl;
    rewrite ?lookup_insert_eq, ?E; simpl;
    try destruct (unlink_denied r); simpl;
    rewrite ?lookup_delete_eq, ?lookup_insert_eq, ?E; done.
Qed.

(** A successful call leaves a regular file at the destination and
    removes nothing. *)
Lemma single_file_success :
  fst (snd (download_single_file r src save_path name w)) = true →
  (∃ d, fs (fst (download_single_file r src save_path name w)) !! save_path
        = Some (NFile d)) ∧
  (∀ p, is_Some (fs w !! p) →
     is_Some (fs (fst (download_single_file r src save_path name w)) !! p)).
Proof.
  unfold download_single_file, urlretrieve.
  destruct (xfer r) as [d| |]; simpl; try done;
    destruct (open_error save_path (fs w)) eqn:Eo; simpl; try done;
    intros _; (split; [exists d; by rewrite lookup_insert_eq|]);
    intros p Hp; destruct (decide (p = save_path)) as [->|];
    rewrite ?lookup_insert_eq, ?lookup_insert_ne by done; eauto.
Qed.
End SingleFile.

(** C1 as stated fails: the directory of the destination exists, the
    transfer breaks after the file was opened and the operating system
    refuses the removal; the error of [os.remove] is swallowed, the
    failure is recorded and the partial file stays. *)
Lemma partial_file_survives_denied_removal :
  fs downloads_ready !! "downloads" = Some NDir ∧
  open_error "downloads/f" (fs downloads_ready) = None ∧
  snd (download_single_file broken_undeletable "http://x/a" "downloads/f" "f"
         downloads_ready) = (false, "f") ∧
  fs (fst (download_single_file broken_undeletable "http://x/a" "downloads/f" "f"
             downloads_ready)) !! "downloads/f" = Some (NFile "par").
Proof. repeat split; vm_compute; reflexivity. Qed.

(** C1, amended: when a transfer raises, [download_single_file] attempts
    to remove what is at the destination before it returns the failure;
    unless that removal is itself refused (its error is swallowed), no
    regular file is left at the destination path in the world that comes
    back together with the failure outcome. *)
Theorem failed_transfer_leaves_no_file
  (r : response) (src save_path name : string) (w : world) :
  fst (snd (download_single_file r src save_path name w)) = false →
  unlink_denied r = false →
  snd (download_single_file r src save_path name w) = (false, name) ∧
  ∀ d, fs (fst (download_single_file r src save_path name w)) !! save_path
       ≠ Some (NFile d).
Proof.
  intros Hfail Hrm.
  split.
  { pose proof (single_file_name r src save_path name w) as Hname.
    destruct (download_single_file r src save_path name w) as [w' [b n]].
    simpl in *. by subst. }
  revert Hfail.
  unfold download_single_file, urlretrieve, os_path_exists, os_remove.
  rewrite Hrm.
  destruct (xfer r); simpl;
    try destruct (open_error save_path (fs w)); simpl;
    destruct (fs w !! save_path) as [[]|] eqn:E; simpl;
    rewrite ?lookup_insert_eq, ?E; simpl;
    rewrite ?lookup_delete_eq, ?E; done.
Qed.

Lemma failed_transfer_leaves_no_file_witness :
  snd (download_single_file broken_removable "http://x/a" "downloads/f" "f"
         downloads_ready) = (false, "f") ∧
  ∀ d, fs (fst (download_single_file broken_removable "http://x/a"
                  "downloads/f" "f" downloads_ready)) !! "downloads/f"
       ≠ Some (NFile d).
Proof.
  apply (failed_transfer_leaves_no_file broken_removable
           "http://x/a" "downloads/f" "f" downloads_ready); reflexivity.
Defined.

(** ** A work item on its own *)

Lemma run_task_result (r : response) (t : task) (w : world) :
  snd (run_task r t w) =
  (match xfer r, open_error (task_path t) (fs w) with
   | Complete _, None => true
   | _, _ => false
   end, snd t).
Proof.
  destruct t as [[src save_path] name]. unfold run_task, task_path. simpl.
  pose proof (single_file_flag r src save_path name w) as Hflag.
  pose proof (single_file_name r src save_path name w) as Hname.
  destruct (download_single_file r src save_path name w) as [w' [b n]].
  simpl in *. by subst.
Qed.

(** The outcome of an item is the same in two worlds that agree on which
    paths are directories. *)
Lemma run_task_same_outcome (r : response) (t : task) (w w' : world) :
  (∀ p, fs w !! p = Some NDir ↔ fs w' !! p = Some NDir) →
  snd (run_task r t w) = snd (run_task r t w').
Proof.
  intros Hd. rewrite !run_task_result. f_equal.
  destruct (xfer r); try done.
  destruct (open_error (task_path t) (fs w)) eqn:E1,
           (open_error (task_path t) (fs w')) eqn:E2; try done.
  - apply (open_error_dirs _ _ (fs w)) in E2; [congruence|].
    intros p. symmetry. apply Hd.
  - apply (open_error_dirs _ _ (fs w')) in E1; [congruence|done].
Qed.

Lemma run_task_dirs (r : response) (t : task) (w : world) (p : string) :
  fs (fst (run_task r t w)) !! p = Some NDir ↔ fs w !! p = Some NDir.
Proof. destruct t as [[src save_path] name]. apply single_file_dirs. Qed.

Lemma run_task_frame (r : response) (t : task) (w : world) (p : string) :
  p ≠ task_path t → fs (fst (run_task r t w)) !! p = fs w !! p.
Proof. destruct t as [[src save_path] name]. apply single_file_frame. Qed.

Lemma run_task_net (r : response) (t : task) (w : world) :
  net (fst (run_task r t w)) = net w ++ [Retrieve (fst (fst t)) (task_path t)].
Proof. destruct t as [[src save_path] name]. apply single_file_net. Qed.

Lemma run_task_success (r : response) (t : task) (w : world) :
  fst (snd (run_task r t w)) = true →
  is_Some (fs (fst (run_task r t w)) !! task_path t) ∧
  (∀ p, is_Some (fs w !! p) → is_Some (fs (fst (run_task r t w)) !! p)).
Proof.
  destruct t as [[src save_path] name]. intros H.
  destruct (single_file_success r src save_path name w H) as [[d Hd] Hk].
  split; [by exists (NFile d)|done].
Qed.

(** ** The tally *)

Lemma tally_from (results : list (nat * (bool * string))) (s f : nat) :
  fold_left
    (fun '(success_count, failed_count) '(_, (success, _)) =>
       if success : bool then (S success_count, failed_count)
       else (success_count, S failed_count))
    results (s, f)
  = (s + succeeded results, f + failed results).
Proof.
  revert s f. induction results as [|[i [[] name]] l IH]; intros s f; simpl.
  - unfold succeeded, failed. simpl. f_equal; lia.
  - rewrite IH. unfold succeeded, failed.
    rewrite filter_cons_True by (simpl; done).
    rewrite filter_cons_False by (simpl; done). simpl.
    f_equal; lia.
  - rewrite IH. unfold succeeded, failed.
    rewrite filter_cons_False by (simpl; done).
    rewrite filter_cons_True by (simpl; done). simpl.
    f_equal; lia.
Qed.

Lemma tally_counts (results : list (nat * (bool * string))) :
  tally results = (succeeded results, failed results).
Proof. unfold tally. by rewrite tally_from. Qed.

Lemma succeeded_failed_length (results : list (nat * (bool * string))) :
  succeeded results + failed results = length results.
Proof.
  unfold succeeded, failed.
  induction results as [|[i [[] name]] l IH]; [done| |].
  - rewrite filter_cons_True by (simpl; done).
    rewrite filter_cons_False by (simpl; done). simpl. lia.
  - rewrite filter_cons_False by (simpl; done).
    rewrite filter_cons_True by (simpl; done). simpl. lia.
Qed.

Lemma failed_zero_all_true (results : list (nat * (bool * string))) :
  failed results = 0 → ∀ i res, (i, res) ∈ results → fst res = true.
Proof.
  unfold failed. intros H i res Hin.
  destruct (fst res) eqn:E; [done|].
  assert ((i, res) ∈ filter (fun x : nat * (bool * string) => fst (snd x) = false)
            results) as Hf.
  { apply list_elem_of_filter. by split. }
  destruct (filter _ results); [by apply elem_of_nil in Hf | done].
Qed.

Lemma all_true_failed_zero (results : list (nat * (bool * string))) :
  (∀ i res, (i, res) ∈ results → fst res = true) → failed results = 0.
Proof.
  unfold failed. induction results as [|[i res] l IH]; intros H; [done|].
  rewrite filter_cons_False.
  - apply IH. intros j r' Hj. apply (H j). by right.
  - simpl. rewrite (H i res) by left. done.
Qed.

(** ** The pool *)

Section Pool.
Variables (max_workers : Z) (env : nat -> response).
Variables (futures : list task) (w0 : world).
Hypothesis workers_positive : (0 < max_workers)%Z.

(** A step does nothing, starts the oldest queued item while a worker
    is free, or lets one busy worker finish. *)
Lemma pool_step_cases (choice : nat) (st : pool) :
  (pool_step max_workers env choice st = st ∧
   queue st = [] ∧ running st = []) ∨
  (can_start max_workers st = true ∧
   pool_step max_workers env choice st = perform env Start st) ∨
  (∃ slot, slot < length (running st) ∧
     pool_step max_workers env choice st = perform env (Finish slot) st).
Proof.
  unfold pool_step.
  destruct (enabled max_workers st) as [|a l] eqn:E.
  { left. unfold enabled, can_start in E.
    apply app_eq_nil in E as [Hs Hr].
    destruct (running st) as [|x run]; [|done].
    destruct (queue st) as [|y q]; [done|].
    simpl in Hs.
    assert ((Z.of_nat 0 <? max_workers)%Z = true) as Hw
      by (apply Z.ltb_lt; lia).
    by rewrite Hw in Hs. }
  assert (In (nth choice (a :: l) a) (a :: l)) as Hin.
  { destruct (decide (choice < length (a :: l))) as [Hlt|Hge].
    - by apply nth_In.
    - rewrite nth_overflow by lia. by left. }
  remember (nth choice (a :: l) a) as act eqn:Hact. clear Hact.
  rewrite <- E in Hin. clear E. unfold enabled in Hin.
  apply in_app_or in Hin as [Hin|Hin].
  - destruct (can_start max_workers st) eqn:Hc; [|done].
    destruct Hin as [<-|[]]. right; left. done.
  - apply in_map_iff in Hin as (slot & <- & Hs). apply in_seq in Hs.
    right; right. exists slot. split; [lia|done].
Qed.

Lemma inv_start (st : pool) :
  can_start max_workers st = true →
  pool_inv max_workers env futures w0 st →
  pool_inv max_workers env futures w0 (perform env Start st).
Proof.
  unfold can_start. intros Hc [Hi [k Hk] Hp Ho Hb Hd Hf].
  simpl. destruct (queue st) as [|[i t] rest] eqn:Hq; [done|].
  apply Z.ltb_lt in Hc.
  split; simpl.
  - unfold started in *. simpl in *. rewrite fmap_app. simpl.
    rewrite <- Hi. rewrite <- !app_assoc. simpl.
    rewrite !app_assoc. symmetry. apply Permutation_middle.
  - exists (k + 1). rewrite <- drop_drop, <- Hk. done.
  - intros j u Hj. apply Hp.
    rewrite elem_of_app in Hj. rewrite elem_of_app.
    destruct Hj as [Hj|Hj]; [left; by right|].
    rewrite elem_of_app in Hj. destruct Hj as [Hj|Hj]; [by right|].
    apply list_elem_of_singleton in Hj as ->. left. by left.
  - done.
  - rewrite length_app. simpl. lia.
  - done.
  - done.
Qed.

Lemma inv_finish (slot : nat) (st : pool) :
  pool_inv max_workers env futures w0 st →
  pool_inv max_workers env futures w0 (perform env (Finish slot) st).
Proof.
  intros [Hi [k Hk] Hp Ho Hb Hd Hf]. simpl.
  destruct (running st !! slot) as [[i t]|] eqn:Hs; [|by split; eauto].
  destruct (run_task (env i) t (pool_world st)) as [w res] eqn:Hr.
  assert (futures !! i = Some t) as Hit.
  { apply Hp. rewrite elem_of_app. right. by eapply list_elem_of_lookup_2. }
  split; simpl.
  - unfold started in *. simpl in *.
    rewrite <- Hi. apply Permutation_app_head.
    rewrite (delete_Permutation (running st) slot (i, t) Hs) at 2.
    rewrite fmap_app. simpl.
    rewrite app_assoc. symmetry. apply Permutation_cons_append.
  - by exists k.
  - intros j u Hj. apply Hp.
    rewrite elem_of_app in Hj. rewrite elem_of_app.
    destruct Hj as [Hj|Hj]; [by left|right].
    rewrite (delete_Permutation (running st) slot (i, t) Hs). by right.
  - intros j r' Hj. rewrite elem_of_app in Hj.
    destruct Hj as [Hj|Hj]; [by apply Ho|].
    apply list_elem_of_singleton in Hj. injection Hj as -> ->.
    exists t. split; [done|].
    replace res with (snd (run_task (env i) t (pool_world st)))
      by (by rewrite Hr).
    apply run_task_same_outcome. apply Hd.
  - rewrite length_delete by eauto. lia.
  - intros p. replace w with (fst (run_task (env i) t (pool_world st)))
      by (by rewrite Hr).
    rewrite run_task_dirs. apply Hd.
  - intros p Hp'. replace w with (fst (run_task (env i) t (pool_world st)))
      by (by rewrite Hr).
    rewrite run_task_frame; [by apply Hf|].
    intros ->. eapply Hp'; [|done]. by eapply list_elem_of_lookup_2.
Qed.

Lemma inv_step (choice : nat) (st : pool) :
  pool_inv max_workers env futures w0 st →
  pool_inv max_workers env futures w0 (pool_step max_workers env choice st).
Proof.
  intros H.
  destruct (pool_step_cases choice st) as [[-> _]|[[Hc ->]|(slot & _ & ->)]];
    [done|by apply inv_start|by apply inv_finish].
Qed.

(** Every step of a pool with work left does one unit of it. *)
Lemma pool_step_measure (choice : nat) (st : pool) :
  pool_measure (pool_step max_workers env choice st)
  = pred (pool_measure st).
Proof.
  unfold pool_measure.
  destruct (pool_step_cases choice st)
    as [(-> & -> & ->)|[[Hc ->]|(slot & Hs & ->)]]; [done| |].
  - unfold can_start in Hc. simpl.
    destruct (queue st) as [|item rest]; [done|].
    simpl. rewrite length_app. simpl. lia.
  - simpl. destruct (lookup_lt_is_Some_2 _ _ Hs) as [[i t] Hit].
    rewrite Hit.
    destruct (run_task (env i) t (pool_world st)) as [w res]. simpl.
    rewrite length_delete by eauto. lia.
Qed.

Lemma pool_run_measure (sched : list nat) (steps : nat) (st : pool) :
  pool_measure (pool_run max_workers env sched steps st)
  = pool_measure st - steps.
Proof.
  revert sched st. induction steps as [|n IH]; intros sched st; simpl.
  - lia.
  - rewrite IH, pool_step_measure. lia.
Qed.

(** Lines 165-173 put the pool in a state that satisfies the invariant. *)
Lemma inv_submit_all (sha_tasks download_tasks : list task) :
  futures = sha_tasks ++ download_tasks →
  pool_inv max_workers env futures w0 (submit_all sha_tasks download_tasks w0).
Proof.
  intros ->. unfold submit_all.
  set (futures := sha_tasks ++ download_tasks).
  split; simpl.
  - unfold started. simpl. rewrite app_nil_r.
    rewrite fst_zip by (rewrite length_seq; lia). done.
  - by exists 0.
  - intros i t Hin. rewrite app_nil_r in Hin.
    apply list_elem_of_lookup in Hin as [j Hj].
    apply lookup_zip_with_Some in Hj as (x & y & Heq & Hx & Hy).
    injection Heq as -> ->.
    apply lookup_seq in Hx as [-> _]. done.
  - intros i res Hin. by apply elem_of_nil in Hin.
  - lia.
  - done.
  - done.
Qed.

Lemma inv_run (sched : list nat) (steps : nat) (st : pool) :
  pool_inv max_workers env futures w0 st →
  pool_inv max_workers env futures w0 (pool_run max_workers env sched steps st).
Proof.
  revert sched st. induction steps as [|n IH]; intros sched st H; [done|].
  simpl. apply IH. by apply inv_step.
Qed.
End Pool.

(** ** The engine *)

Lemma submit_all_queue_length (sha_tasks download_tasks : list task) (w : world) :
  length (queue (submit_all sha_tasks download_tasks w))
  = length (sha_tasks ++ download_tasks).
Proof.
  unfold submit_all. simpl. rewrite length_zip_with, length_seq. lia.
Qed.

(** After the [2 * n] steps the engine waits for, the pool is idle and
    the summary is printed from the tally of the completed futures. *)
Lemma engine_final (max_workers : Z) (env : nat -> response)
  (sha_tasks download_tasks : list task) (sched : list nat) (w : world) :
  (0 < max_workers)%Z →
  let st := pool_run max_workers env sched
              (2 * length (sha_tasks ++ download_tasks))
              (submit_all sha_tasks download_tasks w) in
  pool_inv max_workers env (sha_tasks ++ download_tasks) w st ∧
  queue st = [] ∧ running st = [] ∧
  download_engine sha_tasks download_tasks max_workers env sched w
  = Returned (thread_safe_print
                (EvSummary (succeeded (completed st)) (failed (completed st)))
                (pool_world st)).
Proof.
  intros HW st.
  assert (pool_measure st = 0) as Hm.
  { subst st. rewrite pool_run_measure by done.
    unfold pool_measure at 1. rewrite submit_all_queue_length. simpl. lia. }
  unfold pool_measure in Hm.
  split; [|split; [|split]].
  - subst st. apply inv_run; [done|]. by apply inv_submit_all.
  - destruct (queue st); [done|simpl in Hm; lia].
  - destruct (running st); [done|simpl in Hm; lia].
  - unfold download_engine.
    destruct (Z.leb_spec max_workers 0) as [?|_]; [lia|].
    rewrite submit_all_queue_length. fold st.
    by rewrite tally_counts.
Qed.

(** Items are started in the order of their submission: what is queued is
    a final segment of [futures], what was started is the rest. *)
Lemma started_in_order (max_workers : Z) (env : nat -> response)
  (futures : list task) (w0 : world) (st : pool) :
  pool_inv max_workers env futures w0 st →
  ∃ k, started st ≡ₚ seq 0 k ∧ (k ≤ length futures)%nat.
Proof.
  intros [Hi [k Hk] _ _ _ _ _].
  exists (k `min` length futures). split; [|lia].
  rewrite Hk, fmap_drop, fst_zip in Hi by (rewrite length_seq; lia).
  rewrite <- (take_drop k (seq 0 (length futures))) in Hi at 2.
  rewrite (Permutation_app_comm (take _ _)) in Hi.
  apply Permutation_app_inv_l in Hi. by rewrite take_seq in Hi.
Qed.

(** C2: for every list of submitted tasks (the pool exists, so its bound
    is positive) the engine returns instead of raising; every task has
    exactly one outcome among the completed futures; the outcome of a task
    is the one it has when run on its own, so it does not change when the
    answers to the other tasks or the interleaving change; and the summary
    printed at the end has success_count + failed_count equal to the
    number of submitted tasks. *)
Theorem engine_isolates_failures
  (max_workers : Z) (env : nat -> response)
  (sha_tasks download_tasks : list task) (sched : list nat) (w : world) :
  (0 < max_workers)%Z →
  let futures := sha_tasks ++ download_tasks in
  let final := pool_run max_workers env sched (2 * length futures)
                 (submit_all sha_tasks download_tasks w) in
  download_engine sha_tasks download_tasks max_workers env sched w
  = Returned (thread_safe_print
                (EvSummary (succeeded (completed final))
                           (failed (completed final)))
                (pool_world final)) ∧
  succeeded (completed final) + failed (completed final) = length futures ∧
  (completed final).*1 ≡ₚ seq 0 (length futures) ∧
  (∀ i res, (i, res) ∈ completed final →
     ∃ t, futures !! i = Some t ∧ res = snd (run_task (env i) t w)) ∧
  (∀ (max_workers' : Z) (env' : nat -> response) (sched' : list nat) i res,
     (0 < max_workers')%Z → env' i = env i →
     (i, res) ∈ completed final →
     (i, res) ∈ completed
       (pool_run max_workers' env' sched' (2 * length futures)
          (submit_all sha_tasks download_tasks w))).
Proof.
  intros HW futures final.
  destruct (engine_final max_workers env sha_tasks download_tasks sched w HW)
    as (Hinv & Hq & Hr & Heng).
  fold futures in Hinv, Hq, Hr, Heng. fold final in Hinv, Hq, Hr, Heng.
  assert ((completed final).*1 ≡ₚ seq 0 (length futures)) as Hperm.
  { pose proof (inv_indices _ _ _ _ _ Hinv) as Hi.
    unfold started in Hi. by rewrite Hq, Hr in Hi. }
  split; [done|]. split.
  { rewrite succeeded_failed_length, <- (length_fmap fst), Hperm.
    apply length_seq. }
  split; [done|]. split; [apply Hinv|].
  intros W' env' sched' i res HW' Henv Hin.
  destruct (engine_final W' env' sha_tasks download_tasks sched' w HW')
    as (Hinv' & Hq' & Hr' & _).
  fold futures in Hinv', Hq', Hr'.
  set (final' := pool_run W' env' sched' (2 * length futures)
                   (submit_all sha_tasks download_tasks w)) in *.
  destruct (inv_outcomes _ _ _ _ _ Hinv i res Hin) as (t & Ht & ->).
  assert (i ∈ (completed final').*1) as Hi'.
  { pose proof (inv_indices _ _ _ _ _ Hinv') as Hi.
    unfold started in Hi. rewrite Hq', Hr' in Hi. simpl in Hi.
    rewrite Hi, <- Hperm. apply list_elem_of_fmap. by exists (i, (run_task (env i) t w).2). }
  apply list_elem_of_fmap in Hi' as ([j res'] & -> & Hj). simpl in *.
  destruct (inv_outcomes _ _ _ _ _ Hinv' j res' Hj) as (t' & Ht' & ->).
  rewrite Ht in Ht'. injection Ht' as <-. by rewrite Henv in Hj.
Qed.

Lemma engine_isolates_failures_witness :
  (0 < 3)%Z ∧
  download_engine one_manifest nine_artifacts 3 flaky hopping tree_ready
  = Returned
      (thread_safe_print
         (EvSummary
            (succeeded (completed
               (pool_run 3 flaky hopping
                  (2 * length (one_manifest ++ nine_artifacts))
                  (submit_all one_manifest nine_artifacts tree_ready))))
            (failed (completed
               (pool_run 3 flaky hopping
                  (2 * length (one_manifest ++ nine_artifacts))
                  (submit_all one_manifest nine_artifacts tree_ready)))))
         (pool_world
            (pool_run 3 flaky hopping
               (2 * length (one_manifest ++ nine_artifacts))
               (submit_all one_manifest nine_artifacts tree_ready)))).
Proof.
  split; [lia|].
  apply (engine_isolates_failures 3 flaky one_manifest nine_artifacts hopping
           tree_ready). lia.
Defined.

(** C8: with a positive bound W, the futures are submitted manifests
    first; in every state the pool goes through at most W items are in the
    hands of workers, the others wait in the queue or are done, and no
    artifact item has been started while a manifest item is still queued;
    the summary is printed from the state reached when the queue is empty
    and no worker is busy, in which every submitted item has exactly one
    completed future. *)
Theorem pool_respects_bound
  (max_workers : Z) (env : nat -> response)
  (sha_tasks download_tasks : list task) (sched : list nat) (w : world) :
  (0 < max_workers)%Z →
  let futures := sha_tasks ++ download_tasks in
  let st0 := submit_all sha_tasks download_tasks w in
  let final := pool_run max_workers env sched (2 * length futures) st0 in
  (queue st0).*2 = sha_tasks ++ download_tasks ∧
  (∀ steps,
     let st := pool_run max_workers env sched steps st0 in
     (Z.of_nat (length (running st)) ≤ max_workers)%Z ∧
     (length (queue st) + length (running st) + length (completed st)
      = length futures)%nat ∧
     (∀ i j, (i < length sha_tasks)%nat → (length sha_tasks ≤ j)%nat →
        j ∈ started st → i ∈ started st)) ∧
  queue final = [] ∧ running final = [] ∧
  (completed final).*1 ≡ₚ seq 0 (length futures) ∧
  download_engine sha_tasks download_tasks max_workers env sched w
  = Returned (thread_safe_print
                (EvSummary (succeeded (completed final))
                           (failed (completed final)))
                (pool_world final)).
Proof.
  intros HW futures st0 final.
  destruct (engine_final max_workers env sha_tasks download_tasks sched w HW)
    as (Hinv & Hq & Hr & Heng).
  fold futures in Hinv, Hq, Hr, Heng. fold st0 in Hinv, Hq, Hr, Heng.
  fold final in Hinv, Hq, Hr, Heng.
  split.
  { subst st0. unfold submit_all. simpl.
    apply snd_zip. rewrite length_seq. done. }
  split.
  { intros steps st.
    assert (pool_inv max_workers env futures w st) as Hst.
    { subst st st0. apply inv_run; [done|]. by apply inv_submit_all. }
    split; [apply Hst|]. split.
    - pose proof (inv_indices _ _ _ _ _ Hst) as Hi.
      apply Permutation_length in Hi. unfold started in Hi.
      rewrite !length_app, !length_fmap, length_seq in Hi. lia.
    - intros i j Hi Hj Hin.
      destruct (started_in_order _ _ _ _ _ Hst) as (k & Hk & _).
      rewrite Hk in Hin |- *. apply elem_of_seq in Hin.
      apply elem_of_seq. lia. }
  split; [done|]. split; [done|]. split; [|done].
  pose proof (inv_indices _ _ _ _ _ Hinv) as Hi.
  unfold started in Hi. by rewrite Hq, Hr in Hi.
Qed.

Lemma pool_respects_bound_witness :
  (0 < 3)%Z ∧
  length (one_manifest ++ nine_artifacts) = 10%nat ∧
  (∀ steps,
     (Z.of_nat (length (running
        (pool_run 3 flaky hopping steps
           (submit_all one_manifest nine_artifacts tree_ready)))) ≤ 3)%Z) ∧
  (completed
     (pool_run 3 flaky hopping (2 * length (one_manifest ++ nine_artifacts))
        (submit_all one_manifest nine_artifacts tree_ready))).*1
  ≡ₚ seq 0 10.
Proof.
  assert (0 < 3)%Z as HW by lia.
  split; [exact HW|]. split; [reflexivity|].
  pose proof (pool_respects_bound 3 flaky one_manifest nine_artifacts hopping
                tree_ready HW) as (_ & Hrun & _ & _ & Hdone & _).
  split; [|exact Hdone].
  intros steps. exact (proj1 (Hrun steps)).
Defined.

(** ** Dictionaries *)

Section Dict.
Context {V : Type}.
Implicit Types (d : dict V) (k : string) (v : V).

Lemma dict_get_elem k v d : dict_get k d = Some v → (k, v) ∈ d.
Proof.
  induction d as [|[k' v'] d IH]; simpl; [done|].
  destruct (String.eqb_spec k k') as [->|Hne].
  - intros [= ->]. by left.
  - intros H. right. by apply IH.
Qed.

Lemma dict_get_key k d : k ∈ dict_keys d → is_Some (dict_get k d).
Proof.
  induction d as [|[k' v'] d IH]; simpl.
  - intros H. by apply elem_of_nil in H.
  - destruct (String.eqb_spec k k') as [->|Hne]; [by eauto|].
    intros H. apply elem_of_cons in H as [H|H]; [done|]. by apply IH.
Qed.

Lemma dict_get_set k v d : dict_get k (dict_set k v d) = Some v.
Proof.
  induction d as [|[k' v'] d IH]; simpl.
  - by rewrite String.eqb_refl.
  - destruct (String.eqb_spec k k') as [->|Hne]; simpl.
    + by rewrite String.eqb_refl.
    + destruct (String.eqb_spec k k'); [done|]. apply IH.
Qed.

Lemma dict_set_elem k v k' v' d :
  (k', v') ∈ dict_set k v d → (k' = k ∧ v' = v) ∨ (k', v') ∈ d.
Proof.
  induction d as [|[k0 v0] d IH]; simpl.
  - intros H. apply list_elem_of_singleton in H as [= -> ->]. by left.
  - destruct (String.eqb_spec k k0) as [->|Hne]; intros H;
      apply elem_of_cons in H as [H|H].
    + injection H as -> ->. by left.
    + right. by right.
    + right. rewrite H. by left.
    + destruct (IH H) as [?|?]; [by left|right; by right].
Qed.

Lemma dict_set_fresh k v d :
  dict_get k d = None → dict_set k v d = d ++ [(k, v)].
Proof.
  induction d as [|[k0 v0] d IH]; simpl; [done|].
  destruct (String.eqb_spec k k0); [done|].
  intros H. by rewrite IH.
Qed.

Lemma dict_set_fresh_again k v v' d :
  dict_get k d = None → dict_set k v' (d ++ [(k, v)]) = d ++ [(k, v')].
Proof.
  induction d as [|[k0 v0] d IH]; simpl.
  - by rewrite String.eqb_refl.
  - destruct (String.eqb_spec k k0); [done|].
    intros H. by rewrite IH.
Qed.

Lemma dict_set_keys k v d :
  dict_mem k d = true → dict_keys (dict_set k v d) = dict_keys d.
Proof.
  unfold dict_mem. induction d as [|[k0 v0] d IH]; simpl; [done|].
  destruct (String.eqb_spec k k0) as [->|Hne]; simpl; [done|].
  intros H. f_equal. by apply IH.
Qed.
End Dict.

(** ** The catalog builder *)

Lemma classify_system (name system info : string) :
  classify name = (Some system, info) → system ∈ SYSTEMS.
Proof.
  unfold classify, SYSTEMS.
  destruct (contains "unknown-linux-gnu" name);
    [intros [= <- _]; set_solver|].
  destruct (contains "apple-darwin" name);
    [intros [= <- _]; set_solver|].
  destruct (contains "pc-windows" name);
    [intros [= <- _]; set_solver|done].
Qed.

Lemma truthy_nonempty (s : string) : truthy s = true → s ≠ "".
Proof. unfold truthy. destruct (String.eqb_spec s ""); done. Qed.

Section Builder.
Variables (payload : list asset) (version : string).

Lemma catalog_inv_init :
  catalog_inv payload (map (fun sys => (sys, [])) SYSTEMS).
Proof.
  assert (∀ system versions (entry : string * list descriptor),
            (system, versions) ∈
              map (fun sys => (sys, [])) SYSTEMS →
            entry ∉ (versions : version_map)) as Hempty.
  { intros system versions entry Hs. simpl in Hs.
    repeat (apply elem_of_cons in Hs as [[= -> ->]|Hs];
            [apply not_elem_of_nil|]).
    by apply elem_of_nil in Hs. }
  split; [done| |].
  - intros system versions v files Hs Hv. by destruct (Hempty _ _ _ Hs Hv).
  - intros system d (versions & v & files & Hs & Hv & _).
    by destruct (Hempty _ _ _ Hs Hv).
Qed.

(** Recording a descriptor replaces the version map of its platform by
    one in which the descriptor is appended to the files of [version]. *)
Lemma record_asset_cases (system : string) (d : descriptor)
  (result : catalog) (versions : version_map) :
  dict_get system result = Some versions →
  ∃ versions',
    record_asset version system d result
    = Some (dict_set system versions' result) ∧
    ((∃ files, dict_get version versions = Some files ∧
        versions' = dict_set version (files ++ [d]) versions) ∨
     (dict_get version versions = None ∧
        versions' = versions ++ [(version, [d])])).
Proof.
  intros Hv. unfold record_asset, dict_mem. rewrite Hv.
  destruct (dict_get version versions) as [files|] eqn:E.
  - rewrite E. eexists. split; [done|]. left. by exists files.
  - rewrite dict_get_set. rewrite (dict_set_fresh _ _ _ E).
    rewrite dict_set_fresh_again by done.
    eexists. split; [done|]. by right.
Qed.

(** Recording a descriptor made from an asset of the payload never hits
    a missing key and keeps the invariant. *)
Lemma record_asset_inv (a : asset) (system info : string) (result : catalog) :
  catalog_inv payload result →
  a ∈ payload →
  contains "install_only.tar.gz" (name_of a) = true →
  classify (name_of a) = (Some system, info) →
  info ≠ "" →
  ∃ result',
    record_asset version system
      {| filename := name_of a; platform := info;
         url := address_of a; sha256 := None |} result = Some result' ∧
    catalog_inv payload result'.
Proof.
  intros [Hk Hne Hf] Ha Hmark Hcl Hinfo.
  set (d := {| filename := name_of a; platform := info;
               url := address_of a; sha256 := None |}).
  destruct (dict_get_key system result) as [versions Hv].
  { rewrite Hk. by eapply classify_system. }
  destruct (record_asset_cases system d result versions Hv)
    as (versions' & -> & Hcases).
  eexists. split; [done|].
  assert (∀ v fl, (v, fl) ∈ versions' →
            (v, fl) ∈ versions ∨
            (v = version ∧ ∃ files, fl = files ++ [d] ∧
               ∀ d', d' ∈ files → listed result system d')) as Hnew.
  { intros v fl Hin.
    destruct Hcases as [(files & Hfiles & ->)|[Hnone ->]].
    - apply dict_set_elem in Hin as [[-> ->]|Hin]; [|by left].
      right. split; [done|]. exists files. split; [done|].
      intros d' Hd'. exists versions, version, files.
      split; [by apply dict_get_elem|].
      split; [by apply dict_get_elem|done].
    - apply elem_of_app in Hin as [Hin|Hin]; [by left|].
      apply list_elem_of_singleton in Hin as [= -> ->].
      right. split; [done|]. exists []. split; [done|].
      intros d' Hd'. by apply elem_of_nil in Hd'. }
  split.
  - rewrite dict_set_keys; [done|]. unfold dict_mem. by rewrite Hv.
  - intros s vs v fl Hs Hvf.
    apply dict_set_elem in Hs as [[-> ->]|Hs]; [|by eapply Hne].
    destruct (Hnew v fl Hvf) as [Hin|(-> & files & -> & _)].
    + eapply Hne; [|done]. by apply dict_get_elem.
    + by destruct files.
  - intros s d' (vs & v & fl & Hs & Hvf & Hd').
    apply dict_set_elem in Hs as [[-> ->]|Hs].
    + destruct (Hnew v fl Hvf) as [Hin|(-> & files & -> & Hold)].
      * apply Hf. exists versions, v, fl.
        split; [by apply dict_get_elem|done].
      * apply elem_of_app in Hd' as [Hd'|Hd']; [by apply Hf, Hold|].
        apply list_elem_of_singleton in Hd' as ->.
        exists a. subst d. simpl. done.
    + apply Hf. by exists vs, v, fl.
Qed.

Lemma add_asset_inv (a : asset) (result : catalog) :
  catalog_inv payload result →
  a ∈ payload →
  ∃ result',
    add_asset version result a = Some result' ∧ catalog_inv payload result'.
Proof.
  intros Hinv Ha. unfold add_asset. fold (name_of a). fold (address_of a).
  destruct (contains "install_only.tar.gz" (name_of a)) eqn:Hmark; simpl;
    [|by eauto].
  destruct (classify (name_of a)) as [[system|] info] eqn:Hcl; [|by eauto].
  destruct (truthy system && truthy info)%bool eqn:Ht; [|by eauto].
  apply andb_prop in Ht as [_ Ht]. apply truthy_nonempty in Ht.
  by apply record_asset_inv.
Qed.

Lemma add_assets_inv (l : list asset) (result : catalog) :
  catalog_inv payload result →
  (∀ a, a ∈ l → a ∈ payload) →
  ∃ result',
    add_assets version l result = Some result' ∧ catalog_inv payload result'.
Proof.
  revert result. induction l as [|a l IH]; intros result Hinv Hl; simpl.
  - by eauto.
  - destruct (add_asset_inv a result Hinv) as (result' & -> & Hinv').
    { apply Hl. by left. }
    apply IH; [done|]. intros b Hb. apply Hl. by right.
Qed.
End Builder.

(** A release that was retrieved and decoded always yields a catalog, and
    the catalog satisfies the invariant of the loop. *)
Lemma fetch_release (rel : release) (w : world) :
  ∃ cat,
    fetch_python_versions (ApiRelease rel) w
    = (send GetLatestRelease w, Some cat) ∧
    catalog_inv (default [] (assets rel)) cat.
Proof.
  unfold fetch_python_versions.
  destruct (truthy (default "" (tag_name rel))); cbn [negb].
  - destruct (add_assets_inv (default [] (assets rel))
                (default "" (tag_name rel)) (default [] (assets rel))
                (map (fun sys => (sys, [])) SYSTEMS))
      as (cat & -> & Hinv); [apply catalog_inv_init|done|].
    by exists cat.
  - eexists. split; [done|]. apply catalog_inv_init.
Qed.

(** C6 as stated fails: the name of a checksum file published next to an
    archive does not end with the marker, so it does not match the
    suffix, and yet the builder lists it under Linux. *)
Lemma sidecar_file_is_listed :
  matches_suffix sidecar_name = false ∧
  ∃ cat,
    snd (fetch_python_versions (ApiRelease sidecar_release) empty_world)
    = Some cat ∧
    listed cat "Linux" sidecar_descriptor.
Proof.
  split; [reflexivity|].
  eexists. split; [reflexivity|].
  exists [("20240107", [sidecar_descriptor])], "20240107", [sidecar_descriptor].
  split; [by left|]. split; by left.
Qed.

(** C6, amended: the test is containment, not ending.  For every asset of
    the payload whose name does not contain "install_only.tar.gz"
    anywhere, no platform of the catalog lists a descriptor with that
    name; every listed descriptor has the name and the address of an asset
    of the payload; an asset with no platform marker or no architecture
    marker is listed nowhere, and the builder still returns a catalog. *)
Theorem catalog_builder_filters (rel : release) (w : world) :
  ∃ cat,
    fetch_python_versions (ApiRelease rel) w
    = (send GetLatestRelease w, Some cat) ∧
    (∀ a, a ∈ default [] (assets rel) →
       contains "install_only.tar.gz" (name_of a) = false →
       ∀ system d, listed cat system d → filename d ≠ name_of a) ∧
    (∀ system d, listed cat system d →
       ∃ a, a ∈ default [] (assets rel) ∧
         filename d = name_of a ∧ url d = address_of a ∧ sha256 d = None) ∧
    (∀ a, a ∈ default [] (assets rel) →
       fst (classify (name_of a)) = None ∨ snd (classify (name_of a)) = "" →
       ∀ system d, listed cat system d → filename d ≠ name_of a).
Proof.
  destruct (fetch_release rel w) as (cat & Hfetch & Hinv).
  exists cat. split; [done|]. split; [|split].
  - intros a _ Hno system d Hd Heq.
    destruct (cat_filtered _ _ Hinv system d Hd) as (b & _ & Hb & _ & _ & Hm & _).
    rewrite <- Hb, Heq in Hm. congruence.
  - intros system d Hd.
    destruct (cat_filtered _ _ Hinv system d Hd) as (b & ? & ? & ? & ? & _).
    by exists b.
  - intros a _ Hno system d Hd Heq.
    destruct (cat_filtered _ _ Hinv system d Hd)
      as (b & _ & Hb & _ & _ & _ & Hcl & Hinfo).
    rewrite <- Hb, Heq in Hcl. rewrite Hcl in Hno. simpl in Hno.
    by destruct Hno.
Qed.

Lemma catalog_builder_filters_witness :
  ∃ cat,
    fetch_python_versions (ApiRelease mixed_release) empty_world
    = (send GetLatestRelease empty_world, Some cat) ∧
    ∀ system d, listed cat system d → filename d ≠ name_of source_asset.
Proof.
  destruct (catalog_builder_filters mixed_release empty_world)
    as (cat & Hfetch & Hmarker & _).
  exists cat. split; [exact Hfetch|].
  apply (Hmarker source_asset); [right; left|reflexivity].
Defined.

(** C7: when the request for the release raises (network error, timeout,
    undecodable body), fetch_python_versions returns None and not a
    catalog; main then prints the diagnostic, sends no transfer request,
    leaves the file system alone and exits with status 1.  When a release
    is retrieved the catalog has exactly the keys of SYSTEMS, and a
    platform under which nothing is listed maps to the empty dict. *)
Theorem catalog_fetch_failure_is_fatal :
  (∀ e w,
     fetch_python_versions (ApiFails e) w
     = (print (EvFetchError e) (send GetLatestRelease w), None)) ∧
  (∀ a e tr sc w,
     let w' := fst (main a {| api := ApiFails e; transfers := tr;
                              schedule := sc |} w) in
     main a {| api := ApiFails e; transfers := tr; schedule := sc |} w
     = (w', SysExit 1) ∧
     exit_status (SysExit 1) ≠ 0%Z ∧
     out w' = out w ++ [EvFetching (selected a); EvFetchError e; EvFetchFailed] ∧
     net w' = net w ++ [GetLatestRelease] ∧
     fs w' = fs w) ∧
  (∀ rel w,
     ∃ cat,
       fetch_python_versions (ApiRelease rel) w
       = (send GetLatestRelease w, Some cat) ∧
       dict_keys cat = SYSTEMS ∧
       ∀ system, system ∈ SYSTEMS →
         ∃ versions, dict_get system cat = Some versions ∧
           ((∀ d, ¬ listed cat system d) → versions = [])).
Proof.
  split; [done|]. split.
  { intros a e tr sc w. unfold main. simpl.
    rewrite <- !app_assoc. done. }
  intros rel w.
  destruct (fetch_release rel w) as (cat & Hfetch & Hinv).
  exists cat. split; [done|]. split; [apply Hinv|].
  intros system Hs.
  destruct (dict_get_key system cat) as [versions Hv].
  { by rewrite (cat_keys _ _ Hinv). }
  exists versions. split; [done|]. intros Hnone.
  destruct versions as [|[v files] rest]; [done|].
  apply dict_get_elem in Hv.
  destruct files as [|d files].
  - exfalso. eapply (cat_nonempty _ _ Hinv); [done|by left|done].
  - exfalso. apply (Hnone d). exists ((v, d :: files) :: rest), v, (d :: files).
    split; [done|]. split; by left.
Qed.

Lemma catalog_fetch_failure_is_fatal_witness :
  main {| arg_system := AllSystems; arg_workers := 8 |}
       {| api := ApiFails TimeoutError; transfers := all_complete;
          schedule := [] |} empty_world
  = ({| fs := ∅;
        out := [EvFetching SYSTEMS; EvFetchError TimeoutError; EvFetchFailed];
        net := [GetLatestRelease]; mkdir_refused := ∅ |}, SysExit 1) ∧
  ∃ versions,
    dict_get "Windows"
      (default [] (snd (fetch_python_versions (ApiRelease mixed_release)
                          empty_world))) = Some versions ∧
    versions = [].
Proof.
  destruct catalog_fetch_failure_is_fatal as (_ & Hmain & Hkeys).
  split.
  { destruct (Hmain {| arg_system := AllSystems; arg_workers := 8 |}
                TimeoutError all_complete [] empty_world) as (Heq & _).
    rewrite Heq. reflexivity. }
  destruct (Hkeys mixed_release empty_world) as (cat & Hfetch & _ & Hall).
  destruct (Hall "Windows") as (versions & Hv & Hempty).
  { right. right. left. }
  exists versions. rewrite Hfetch. split; [exact Hv|].
  apply Hempty. intros d (vs & v & files & Hs & Hvf & Hd).
  injection Hfetch as Hcat. subst cat. clear -Hs Hvf.
  vm_compute in Hs.
  repeat (apply elem_of_cons in Hs as [Hs|Hs];
          [simplify_eq; try by apply elem_of_nil in Hvf|]).
  by apply elem_of_nil in Hs.
Defined.

(** C9: a release that was retrieved and decoded but has no tag, or an
    empty one, gives the catalog in which every platform maps to the
    empty dict; the planner then has no task, main prints that there is
    nothing to download, sends no transfer request and returns normally,
    with exit status 0. *)
Theorem missing_tag_is_not_a_failure
  (a : args) (rel : release) (tr : nat -> response) (sc : list nat) (w : world) :
  default "" (tag_name rel) = "" →
  let cat : catalog := map (fun sys => (sys, [])) SYSTEMS in
  let w1 := print EvBlank (print EvRule
              (print (EvJson (filter_systems cat (selected a)))
                 (print EvRule
                    (send GetLatestRelease
                       (print (EvFetching (selected a)) w))))) in
  fetch_python_versions (ApiRelease rel) w
  = (send GetLatestRelease w, Some cat) ∧
  plan_tasks cat (selected a) w1
  = Ok {| sha_tasks := []; download_tasks := []; plan_world := w1 |} ∧
  main a {| api := ApiRelease rel; transfers := tr; schedule := sc |} w
  = (print_stats cat (selected a) (thread_safe_print EvNothing w1),
     ExitNormal) ∧
  exit_status ExitNormal = 0%Z.
Proof.
  intros Htag cat w1.
  assert (∀ w0, fetch_python_versions (ApiRelease rel) w0
                = (send GetLatestRelease w0, Some cat)) as Hfetch.
  { intros w0. unfold fetch_python_versions. by rewrite Htag. }
  split; [apply Hfetch|].
  split; [by destruct a as [[] W]|].
  split; [|done].
  unfold main. rewrite Hfetch.
  by destruct a as [[] W].
Qed.

Lemma missing_tag_is_not_a_failure_witness :
  default "" (tag_name untagged_release) = "" ∧
  snd (main {| arg_system := OnlyLinux; arg_workers := 0 |}
         {| api := ApiRelease untagged_release; transfers := all_complete;
            schedule := [] |} empty_world) = ExitNormal.
Proof.
  split; [reflexivity|].
  destruct (missing_tag_is_not_a_failure
              {| arg_system := OnlyLinux; arg_workers := 0 |}
              untagged_release all_complete [] empty_world eq_refl)
    as (_ & _ & Hmain & _).
  rewrite Hmain. reflexivity.
Defined.

(** ** Growth of the file system *)

Lemma fs_grows_refl (f : gmap string node) : fs_grows f f.
Proof. intros q. by left. Qed.

Lemma fs_grows_trans (f1 f2 f3 : gmap string node) :
  fs_grows f1 f2 → fs_grows f2 f3 → fs_grows f1 f3.
Proof.
  intros H12 H23 q.
  destruct (H12 q) as [E12|[E1 E2]], (H23 q) as [E23|[E2' E3]].
  - left. congruence.
  - right. split; congruence.
  - right. split; congruence.
  - congruence.
Qed.

Lemma fs_grows_keeps (f f' : gmap string node) (q : string) (n : node) :
  fs_grows f f' → f !! q = Some n → f' !! q = Some n.
Proof. intros H Hq. destruct (H q) as [E|[E _]]; congruence. Qed.

Lemma fs_grows_is_Some (f f' : gmap string node) (q : string) :
  fs_grows f f' → is_Some (f !! q) → is_Some (f' !! q).
Proof. intros H [n Hn]. exists n. by eapply fs_grows_keeps. Qed.

Lemma fs_grows_absent (f f' : gmap string node) (q : string) :
  fs_grows f f' → f' !! q = None → f !! q = None.
Proof. intros H Hq. destruct (H q) as [E|[_ E]]; congruence. Qed.

Lemma fs_grows_file (f f' : gmap string node) (q d : string) :
  fs_grows f f' → f' !! q = Some (NFile d) → f !! q = Some (NFile d).
Proof. intros H Hq. destruct (H q) as [E|[_ E]]; congruence. Qed.

(** ** os.makedirs *)

Lemma obstructed_earlier (w w' : world) (q : string) :
  fs_grows (fs w) (fs w') → mkdir_refused w' = mkdir_refused w →
  obstructed w' q → obstructed w q.
Proof.
  intros Hg Hm [[d Hd]|[Hnone Href]].
  - left. exists d. by eapply fs_grows_file.
  - right. split; [by eapply fs_grows_absent|by rewrite <- Hm].
Qed.

Lemma makedirs_chain_spec (chain : list string) (w : world) :
  out (fst (makedirs_chain chain w)) = out w ∧
  net (fst (makedirs_chain chain w)) = net w ∧
  mkdir_refused (fst (makedirs_chain chain w)) = mkdir_refused w ∧
  (∀ q, fs (fst (makedirs_chain chain w)) !! q = fs w !! q ∨
        (q ∈ chain ∧ fs w !! q = None ∧
         fs (fst (makedirs_chain chain w)) !! q = Some NDir)) ∧
  match snd (makedirs_chain chain w) with
  | None => ∀ q, q ∈ chain → fs (fst (makedirs_chain chain w)) !! q = Some NDir
  | Some _ => ∃ q, q ∈ chain ∧ obstructed w q
  end.
Proof.
  revert w. induction chain as [|p rest IH]; intros w; simpl.
  { repeat split; [by left|]. intros q Hq. by apply elem_of_nil in Hq. }
  unfold mkdir_exist_ok.
  destruct (fs w !! p) as [[d|]|] eqn:Hp; simpl.
  - repeat split; [by left|]. exists p. split; [by left|]. left. by exists d.
  - destruct (IH w) as (Ho & Hn & Hm & Hf & Hr).
    destruct (makedirs_chain rest w) as [w' r]. simpl in *.
    repeat split; [done|done|done| |].
    + intros q. destruct (Hf q) as [?|(? & ? & ?)]; [by left|right].
      split; [by right|done].
    + destruct r as [e|].
      * destruct Hr as (q & Hq & Hd). exists q. split; [by right|done].
      * intros q Hq. apply elem_of_cons in Hq as [->|Hq]; [|by apply Hr].
        destruct (Hf p) as [E|(_ & E & _)]; congruence.
  - destruct (mkdir_refused w !! p) as [e|] eqn:Href; simpl.
    { repeat split; [by left|]. exists p. split; [by left|]. right.
      split; [done|]. rewrite Href. by eexists. }
    set (w1 := set_fs (<[p:=NDir]> (fs w)) w).
    destruct (IH w1) as (Ho & Hn & Hm & Hf & Hr).
    destruct (makedirs_chain rest w1) as [w' r]. simpl in *.
    repeat split; [done|done|done| |].
    + intros q. destruct (decide (q = p)) as [->|Hne].
      * right. split; [by left|]. split; [done|].
        destruct (Hf p) as [E|(_ & E & _)];
          rewrite lookup_insert_eq in E; [done|congruence].
      * destruct (Hf q) as [E|(Hq & E & E')];
          rewrite lookup_insert_ne in E by done; [by left|right].
        split; [by right|done].
    + destruct r as [e|].
      * destruct Hr as (q & Hq & Hd).
        exists q. split; [by right|].
        destruct (decide (q = p)) as [->|Hne].
        { destruct Hd as [[d Hd]|[Hd _]]; simpl in Hd;
            rewrite lookup_insert_eq in Hd; congruence. }
        destruct Hd as [[d Hd]|[Hd Hx]]; simpl in Hd;
          rewrite lookup_insert_ne in Hd by done.
        -- left. by exists d.
        -- right. by split.
      * intros q Hq. apply elem_of_cons in Hq as [->|Hq]; [|by apply Hr].
        destruct (Hf p) as [E|(_ & E & _)];
          rewrite lookup_insert_eq in E; [done|congruence].
Qed.

Lemma os_makedirs_spec (p : string) (w : world) :
  out (fst (os_makedirs p w)) = out w ∧
  net (fst (os_makedirs p w)) = net w ∧
  mkdir_refused (fst (os_makedirs p w)) = mkdir_refused w ∧
  fs_grows (fs w) (fs (fst (os_makedirs p w))) ∧
  (∀ q, q ∉ path_chain p → fs (fst (os_makedirs p w)) !! q = fs w !! q) ∧
  match snd (os_makedirs p w) with
  | None => ∀ q, q ∈ path_chain p → fs (fst (os_makedirs p w)) !! q = Some NDir
  | Some _ => ∃ q, q ∈ path_chain p ∧ obstructed w q
  end.
Proof.
  unfold os_makedirs.
  destruct (makedirs_chain_spec (path_chain p) w) as (Ho & Hn & Hm & Hf & Hr).
  repeat split; [done|done|done| | |done].
  - intros q. destruct (Hf q) as [?|(_ & ? & ?)]; [by left|by right].
  - intros q Hq. destruct (Hf q) as [?|(? & _)]; done.
Qed.

(** ** The planner *)

Lemma planned_refl (st : plan) : planned [] st st.
Proof.
  split; [done|done|apply fs_grows_refl| |].
  - exists []. rewrite app_nil_r. split; [done|].
    split; intros ? H; [by apply elem_of_nil in H|].
    intros Hin. by apply elem_of_nil in Hin.
  - exists [], []. rewrite !app_nil_r.
    split; [done|]. split; [done|]. split.
    + intros t Ht. by apply elem_of_nil in Ht.
    + intros p name Hin. by apply elem_of_nil in Hin.
Qed.

Lemma planned_trans (d1 d2 : list (string * string)) (st st' st'' : plan) :
  planned d1 st st' → planned d2 st' st'' → planned (d1 ++ d2) st st''.
Proof.
  intros [Hn1 Hm1 Hf1 (ev1 & Ho1 & Hs1 & Hk1)
            (sa1 & dl1 & Hsa1 & Hdl1 & Ht1 & Hc1)]
         [Hn2 Hm2 Hf2 (ev2 & Ho2 & Hs2 & Hk2)
            (sa2 & dl2 & Hsa2 & Hdl2 & Ht2 & Hc2)].
  split.
  - congruence.
  - congruence.
  - by eapply fs_grows_trans.
  - exists (ev1 ++ ev2). split; [by rewrite Ho2, Ho1, app_assoc|]. split.
    + intros e He. apply elem_of_app in He as [He|He]; eauto.
    + intros p name Hin Hp. apply elem_of_app.
      apply elem_of_app in Hin as [Hin|Hin]; [left; by eapply Hk1|right].
      eapply Hk2; [done|]. by eapply fs_grows_is_Some.
  - exists (sa1 ++ sa2), (dl1 ++ dl2).
    split; [by rewrite Hsa2, Hsa1, app_assoc|].
    split; [by rewrite Hdl2, Hdl1, app_assoc|].
    assert (∀ t, t ∈ (sa1 ++ sa2) ++ dl1 ++ dl2 ↔
                 t ∈ sa1 ++ dl1 ∨ t ∈ sa2 ++ dl2) as Hmem.
    { intros t. rewrite !elem_of_app. tauto. }
    split.
    + intros t Ht. apply Hmem in Ht as [Ht|Ht].
      * destruct (Ht1 t Ht). split; [done|]. apply elem_of_app. by left.
      * destruct (Ht2 t Ht) as [Hnone Hd]. split.
        -- by eapply fs_grows_absent.
        -- apply elem_of_app. by right.
    + intros p name Hin. apply elem_of_app in Hin as [Hin|Hin].
      * destruct (Hc1 p name Hin) as [Hp|(t & Ht & Hp)].
        -- left. by eapply fs_grows_is_Some.
        -- right. exists t. split; [|done]. apply Hmem. by left.
      * destruct (Hc2 p name Hin) as [Hp|(t & Ht & Hp)]; [by left|].
        right. exists t. split; [|done]. apply Hmem. by right.
Qed.

(** Testing one destination in a world that grew from the planner's:
    either a notice or one more task. *)
Lemma test_destination (st st' : plan) (w1 : world) (p name : string)
  (new_sha new_dl : list task) :
  fs_grows (fs (plan_world st)) (fs w1) →
  net w1 = net (plan_world st) →
  mkdir_refused w1 = mkdir_refused (plan_world st) →
  out w1 = out (plan_world st) →
  (∀ t, t ∈ new_sha ++ new_dl → task_path t = p ∧ snd t = name) →
  length (new_sha ++ new_dl) = 1 →
  st' = (if os_path_exists p w1 then
           {| sha_tasks := sha_tasks st; download_tasks := download_tasks st;
              plan_world := thread_safe_print (EvSkip name) w1 |}
         else
           {| sha_tasks := sha_tasks st ++ new_sha;
              download_tasks := download_tasks st ++ new_dl;
              plan_world := w1 |}) →
  planned [(p, name)] st st'.
Proof.
  intros Hg Hn Hm Ho Hnew Hone ->. unfold os_path_exists.
  destruct (fs w1 !! p) as [n|] eqn:Hp.
  - split; simpl; [done|done|done| |].
    + exists [EvSkip name]. split; [by rewrite Ho|]. split.
      * intros e He. apply list_elem_of_singleton in He. by exists name.
      * intros p' name' Hin _. apply list_elem_of_singleton in Hin.
        injection Hin as -> ->. by left.
    + exists [], []. rewrite !app_nil_r. split; [done|]. split; [done|]. split.
      * intros t Ht. by apply elem_of_nil in Ht.
      * intros p' name' Hin. apply list_elem_of_singleton in Hin.
        injection Hin as -> ->. left. by rewrite Hp.
  - split; simpl; [done|done|done| |].
    + exists []. rewrite app_nil_r. split; [done|]. split.
      * intros e He. by apply elem_of_nil in He.
      * intros p' name' Hin [n Hn']. apply list_elem_of_singleton in Hin.
        injection Hin as -> ->.
        rewrite (fs_grows_keeps _ _ _ _ Hg Hn') in Hp. done.
    + exists new_sha, new_dl. split; [done|]. split; [done|]. split.
      * intros t Ht. destruct (Hnew t Ht) as [-> <-]. split.
        -- by eapply fs_grows_absent.
        -- by left.
      * intros p' name' Hin. apply list_elem_of_singleton in Hin.
        injection Hin as -> ->. right.
        destruct (new_sha ++ new_dl) as [|t [|]] eqn:E; try done.
        exists t. split; [by left|]. apply Hnew. by left.
Qed.

Lemma plan_item_planned (folder_path : string) (st : plan) (item : descriptor) :
  planned [(os_path_join folder_path [filename item], filename item)]
    st (plan_item folder_path st item).
Proof.
  apply (test_destination st _ (plan_world st) _ _
           [] [(url item, os_path_join folder_path [filename item],
                filename item)]);
    [apply fs_grows_refl|done|done|done| |done|].
  - intros t Ht. by apply list_elem_of_singleton in Ht as ->.
  - unfold plan_item. rewrite app_nil_r.
    by destruct (os_path_exists _ _), st.
Qed.

Lemma plan_files_planned (folder_path : string) (files : list descriptor)
  (st : plan) :
  planned ((fun item => (os_path_join folder_path [filename item],
                         filename item)) <$> files)
    st (fold_left (plan_item folder_path) files st).
Proof.
  revert st. induction files as [|item files IH]; intros st; simpl.
  - apply planned_refl.
  - apply (planned_trans [_] _ st (plan_item folder_path st item)).
    + apply plan_item_planned.
    + apply IH.
Qed.

Lemma plan_version_spec (system : string) (st : plan)
  (entry : string * list descriptor) :
  match plan_version system st entry with
  | Ok st' =>
      planned (destinations_of_version system entry) st st' ∧
      (∀ q, q ∈ path_chain (folder_of system) →
         fs (plan_world st') !! q = Some NDir)
  | Raised e w' =>
      (∃ q, q ∈ path_chain (folder_of system) ∧
         obstructed (plan_world st) q) ∧
      fs_grows (fs (plan_world st)) (fs w') ∧
      net w' = net (plan_world st)
  end.
Proof.
  destruct entry as [version files]. unfold plan_version.
  destruct (os_makedirs_spec (folder_of system) (plan_world st))
    as (Ho & Hn & Hm & Hg & _ & Hr).
  destruct (os_makedirs (folder_of system) (plan_world st)) as [w1 [e|]];
    simpl in *; [done|].
  set (sha_path := os_path_join (folder_of system) [sha_name version]).
  match goal with |- context [fold_left _ _ ?x] => set (st1 := x) end.
  assert (planned [(sha_path, sha_name version)] st st1) as H1.
  { apply (test_destination st _ w1 _ _
             [(sha_source version, sha_path, sha_name version)] []);
      [done|done|done|done| |done|].
    - intros t Ht. by apply list_elem_of_singleton in Ht as ->.
    - subst st1 sha_path. simpl. rewrite app_nil_r.
      by destruct (os_path_exists _ w1). }
  pose proof (plan_files_planned (folder_of system) files st1) as H2.
  split.
  - apply (planned_trans [_] _ st st1); done.
  - intros q Hq.
    apply (fs_grows_keeps _ _ _ _ (pl_fs _ _ _ H2)).
    assert (fs (plan_world st1) = fs w1) as ->; [|by apply Hr].
    subst st1. by destruct (os_path_exists _ w1).
Qed.

Lemma plan_versions_spec (system : string) (versions : version_map)
  (st : plan) :
  match for_each (plan_version system) versions st with
  | Ok st' =>
      planned (versions ≫= destinations_of_version system) st st' ∧
      (versions ≠ [] →
       ∀ q, q ∈ path_chain (folder_of system) →
         fs (plan_world st') !! q = Some NDir)
  | Raised e w' =>
      (∃ q, q ∈ path_chain (folder_of system) ∧
         obstructed (plan_world st) q) ∧
      fs_grows (fs (plan_world st)) (fs w') ∧
      net w' = net (plan_world st)
  end.
Proof.
  revert st. induction versions as [|entry versions IH]; intros st;
    cbn [for_each].
  { split; [apply planned_refl|done]. }
  pose proof (plan_version_spec system st entry) as H1.
  destruct (plan_version system st entry) as [st1|e w1]; [|done].
  destruct H1 as [H1 Hd1].
  specialize (IH st1).
  destruct (for_each (plan_version system) versions st1) as [st'|e w'].
  - destruct IH as [H2 _]. split.
    + rewrite bind_cons. by eapply planned_trans.
    + intros _ q Hq. apply (fs_grows_keeps _ _ _ _ (pl_fs _ _ _ H2)).
      by apply Hd1.
  - destruct IH as ((q & Hq & Hfile) & Hg & Hn). split; [|split].
    + exists q. split; [done|].
      apply (obstructed_earlier _ (plan_world st1));
        [apply (pl_fs _ _ _ H1)|apply (pl_refused _ _ _ H1)|done].
    + eapply fs_grows_trans; [apply (pl_fs _ _ _ H1)|done].
    + rewrite Hn. apply (pl_net _ _ _ H1).
Qed.

Lemma plan_system_spec (versions_data : catalog) (st : plan) (system : string) :
  match plan_system versions_data st system with
  | Ok st' =>
      planned (destinations_of_system versions_data system) st st' ∧
      ready (fs (plan_world st')) (folders_of_system versions_data system)
  | Raised e w' =>
      blocked (plan_world st) (folders_of_system versions_data system) ∧
      fs_grows (fs (plan_world st)) (fs w') ∧
      net w' = net (plan_world st)
  end.
Proof.
  unfold plan_system, destinations_of_system, folders_of_system.
  destruct (dict_get system versions_data) as [[|entry versions]|].
  - split; [apply planned_refl|]. intros folder q Hf.
    by apply elem_of_nil in Hf.
  - pose proof (plan_versions_spec system (entry :: versions) st) as H.
    destruct (for_each (plan_version system) (entry :: versions) st)
      as [st'|e w'].
    + destruct H as [H Hd]. split; [done|].
      intros folder q Hf Hq.
      apply list_elem_of_singleton in Hf as ->. by apply Hd.
    + destruct H as ((q & Hq & Hfile) & Hg & Hn). split; [|done].
      exists (folder_of system), q. split; [by left|done].
  - split; [apply planned_refl|]. intros folder q Hf.
    by apply elem_of_nil in Hf.
Qed.

Lemma plan_systems_spec (versions_data : catalog) (systems : list string)
  (st : plan) :
  match for_each (plan_system versions_data) systems st with
  | Ok st' =>
      planned (destinations versions_data systems) st st' ∧
      ready (fs (plan_world st')) (folders versions_data systems)
  | Raised e w' =>
      blocked (plan_world st) (folders versions_data systems) ∧
      fs_grows (fs (plan_world st)) (fs w') ∧
      net w' = net (plan_world st)
  end.
Proof.
  unfold destinations, folders.
  revert st. induction systems as [|system systems IH]; intros st;
    cbn [for_each].
  { split; [apply planned_refl|]. intros folder q Hf.
    by apply elem_of_nil in Hf. }
  pose proof (plan_system_spec versions_data st system) as H1.
  destruct (plan_system versions_data st system) as [st1|e w1].
  - destruct H1 as [H1 Hd1]. specialize (IH st1).
    destruct (for_each (plan_system versions_data) systems st1) as [st'|e w'].
    + destruct IH as [H2 Hd2]. split.
      * rewrite bind_cons. by eapply planned_trans.
      * intros folder q Hf Hq. rewrite bind_cons in Hf.
        apply elem_of_app in Hf as [Hf|Hf]; [|by eapply Hd2].
        apply (fs_grows_keeps _ _ _ _ (pl_fs _ _ _ H2)). by eapply Hd1.
    + destruct IH as ((folder & q & Hf & Hq & Hfile) & Hg & Hn).
      split; [|split].
      * exists folder, q. rewrite bind_cons.
        split; [apply elem_of_app; by right|]. split; [done|].
        apply (obstructed_earlier _ (plan_world st1));
          [apply (pl_fs _ _ _ H1)|apply (pl_refused _ _ _ H1)|done].
      * eapply fs_grows_trans; [apply (pl_fs _ _ _ H1)|done].
      * rewrite Hn. apply (pl_net _ _ _ H1).
  - destruct H1 as ((folder & q & Hf & Hq & Hfile) & Hg & Hn).
    split; [|done].
    exists folder, q. rewrite bind_cons.
    split; [apply elem_of_app; by left|done].
Qed.

(** ** download_files *)

Lemma plan_tasks_spec (versions_data : catalog) (systems : list string)
  (w : world) :
  match plan_tasks versions_data systems w with
  | Ok st =>
      planned (destinations versions_data systems)
        {| sha_tasks := []; download_tasks := []; plan_world := w |} st ∧
      ready (fs (plan_world st)) (folders versions_data systems)
  | Raised e w' =>
      blocked w (folders versions_data systems) ∧
      fs_grows (fs w) (fs w') ∧ net w' = net w
  end.
Proof. apply plan_systems_spec. Qed.

(** The tasks of a plan are the destinations that did not exist when
    planning began. *)
Lemma plan_tasks_pending (versions_data : catalog) (systems : list string)
  (w : world) (st : plan) :
  plan_tasks versions_data systems w = Ok st →
  (∀ t, t ∈ sha_tasks st ++ download_tasks st →
     fs w !! task_path t = None ∧
     (task_path t, snd t) ∈ destinations versions_data systems) ∧
  (∀ p name, (p, name) ∈ destinations versions_data systems →
     is_Some (fs (plan_world st) !! p) ∨
     ∃ t, t ∈ sha_tasks st ++ download_tasks st ∧ task_path t = p).
Proof.
  intros Hplan. pose proof (plan_tasks_spec versions_data systems w) as H.
  rewrite Hplan in H.
  destruct H as [[_ _ _ _ (sa & dl & Hsa & Hdl & Ht & Hc)] _].
  simpl in *. by rewrite Hsa, Hdl.
Qed.

Lemma elem_of_folders (versions_data : catalog) (systems : list string)
  (folder : string) :
  folder ∈ folders versions_data systems ↔
  ∃ system entry versions,
    system ∈ systems ∧
    dict_get system versions_data = Some (entry :: versions) ∧
    folder = folder_of system.
Proof.
  unfold folders. rewrite list_elem_of_bind. split.
  - intros (system & Hf & Hs). unfold folders_of_system in Hf.
    destruct (dict_get system versions_data) as [[|entry versions]|] eqn:E;
      try by apply elem_of_nil in Hf.
    apply list_elem_of_singleton in Hf. by exists system, entry, versions.
  - intros (system & entry & versions & Hs & Hget & ->).
    exists system. split; [|done]. unfold folders_of_system.
    rewrite Hget. by left.
Qed.

Lemma path_chain_last (p : string) : p ∈ path_chain p.
Proof. unfold path_chain. apply elem_of_app. right. by left. Qed.

(** What blocks a plan sits on the chain of the directory of a selected
    platform that has a version. *)
Lemma blocked_folders (versions_data : catalog) (systems : list string)
  (w : world) :
  blocked w (folders versions_data systems) →
  ∃ system entry versions q,
    system ∈ systems ∧
    dict_get system versions_data = Some (entry :: versions) ∧
    q ∈ path_chain (folder_of system) ∧
    ((∃ d, fs w !! q = Some (NFile d)) ∨
     (fs w !! q = None ∧ is_Some (mkdir_refused w !! q))).
Proof.
  intros (folder & q & Hf & Hq & Hobs).
  apply elem_of_folders in Hf as (system & entry & versions & Hs & Hget & ->).
  by exists system, entry, versions, q.
Qed.

(** How a call of download_files that returns has gone. *)
Lemma download_files_returned (versions_data : catalog)
  (systems : list string) (max_workers : Z) (env : nat -> response)
  (sched : list nat) (w w' : world) :
  download_files versions_data systems max_workers env sched w = Returned w' →
  ∃ st,
    plan_tasks versions_data systems w = Ok st ∧
    ((sha_tasks st ++ download_tasks st = [] ∧
      w' = thread_safe_print EvNothing (plan_world st)) ∨
     (sha_tasks st ++ download_tasks st ≠ [] ∧ (0 < max_workers)%Z ∧
      ∃ final,
        final = pool_run max_workers env sched
                  (2 * length (sha_tasks st ++ download_tasks st))
                  (submit_all (sha_tasks st) (download_tasks st)
                     (thread_safe_print
                        (EvPreparing
                           (length (sha_tasks st) + length (download_tasks st))
                           max_workers)
                        (plan_world st))) ∧
        pool_inv max_workers env (sha_tasks st ++ download_tasks st)
          (thread_safe_print
             (EvPreparing (length (sha_tasks st) + length (download_tasks st))
                max_workers)
             (plan_world st)) final ∧
        queue final = [] ∧ running final = [] ∧
        w' = thread_safe_print
               (EvSummary (succeeded (completed final))
                          (failed (completed final)))
               (pool_world final))).
Proof.
  unfold download_files.
  destruct (plan_tasks versions_data systems w) as [st|e w1]; [|done].
  intros H. exists st. split; [done|].
  destruct (Nat.eqb_spec (length (sha_tasks st) + length (download_tasks st)) 0)
    as [Hz|Hnz].
  - left. injection H as <-. split; [|done].
    apply nil_length_inv. rewrite length_app. done.
  - right. split.
    { intros E. apply Hnz. rewrite <- length_app, E. done. }
    destruct (Z.ltb_spec 0 max_workers) as [HW|HW].
    + split; [done|].
      destruct (engine_final max_workers env (sha_tasks st) (download_tasks st)
                  sched
                  (thread_safe_print
                     (EvPreparing
                        (length (sha_tasks st) + length (download_tasks st))
                        max_workers) (plan_world st)) HW)
        as (Hinv & Hq & Hr & Heng).
      rewrite Heng in H. injection H as <-.
      eexists. split; [done|]. done.
    + unfold download_engine in H.
      destruct (Z.leb_spec max_workers 0); [done|lia].
Qed.

(** Whatever way download_files ends after a plan was made, the engine
    neither creates nor removes directories and touches no path that is
    not the destination of a planned task. *)
Lemma download_files_world (versions_data : catalog)
  (systems : list string) (max_workers : Z) (env : nat -> response)
  (sched : list nat) (w : world) (st : plan) :
  plan_tasks versions_data systems w = Ok st →
  (∀ p, fs (world_of (download_files versions_data systems max_workers env
                        sched w)) !! p = Some NDir
        ↔ fs (plan_world st) !! p = Some NDir) ∧
  (∀ p, (∀ t, t ∈ sha_tasks st ++ download_tasks st → task_path t ≠ p) →
     fs (world_of (download_files versions_data systems max_workers env
                     sched w)) !! p = fs (plan_world st) !! p).
Proof.
  intros Hplan. unfold download_files. rewrite Hplan.
  destruct (Nat.eqb _ 0); [done|].
  destruct (Z.ltb_spec 0 max_workers) as [HW|HW].
  - destruct (engine_final max_workers env (sha_tasks st) (download_tasks st)
                sched
                (thread_safe_print
                   (EvPreparing
                      (length (sha_tasks st) + length (download_tasks st))
                      max_workers) (plan_world st)) HW)
      as (Hinv & _ & _ & ->).
    cbn [world_of]. split.
    + intros p. apply (inv_dirs _ _ _ _ _ Hinv p).
    + intros p Hp. apply (inv_frame _ _ _ _ _ Hinv p Hp).
  - unfold download_engine.
    destruct (Z.leb_spec max_workers 0); [done|lia].
Qed.

(** C10: for every selected platform that the catalog maps to at least
    one version, planning creates the directory downloads/<platform>/Python;
    it is there in the world the plan is made in and in the world
    download_files ends in, whether or not any task was planned.  Planning
    goes through whenever no regular file sits on the chain of such a
    directory and the operating system refuses the creation of none of
    the directories that are missing on it. *)
Theorem planning_creates_directories
  (versions_data : catalog) (systems : list string) (max_workers : Z)
  (env : nat -> response) (sched : list nat) (w : world) :
  ((∀ system entry versions q d,
      system ∈ systems →
      dict_get system versions_data = Some (entry :: versions) →
      q ∈ path_chain (folder_of system) → fs w !! q ≠ Some (NFile d)) →
   (∀ system entry versions q,
      system ∈ systems →
      dict_get system versions_data = Some (entry :: versions) →
      q ∈ path_chain (folder_of system) →
      fs w !! q = None → mkdir_refused w !! q = None) →
   ∃ st, plan_tasks versions_data systems w = Ok st) ∧
  (∀ st system entry versions,
     plan_tasks versions_data systems w = Ok st →
     system ∈ systems →
     dict_get system versions_data = Some (entry :: versions) →
     fs (plan_world st) !! folder_of system = Some NDir ∧
     fs (world_of (download_files versions_data systems max_workers env
                     sched w)) !! folder_of system = Some NDir).
Proof.
  pose proof (plan_tasks_spec versions_data systems w) as Hspec.
  split.
  - intros Hfree Hallowed.
    destruct (plan_tasks versions_data systems w) as [st|e w']; [by eauto|].
    destruct Hspec as (Hblocked & _).
    apply blocked_folders in Hblocked
      as (system & entry & versions & q & Hs & Hget & Hq & Hobs).
    destruct Hobs as [[d Hfile]|[Hnone [x Hx]]].
    + by destruct (Hfree system entry versions q d).
    + rewrite (Hallowed system entry versions q Hs Hget Hq Hnone) in Hx. done.
  - intros st system entry versions Hplan Hs Hget.
    rewrite Hplan in Hspec. destruct Hspec as [_ Hready].
    assert (fs (plan_world st) !! folder_of system = Some NDir) as Hdir.
    { apply (Hready (folder_of system)); [|apply path_chain_last].
      apply elem_of_folders. by exists system, entry, versions. }
    split; [done|].
    by apply (download_files_world _ _ max_workers env sched _ _ Hplan).
Qed.

Lemma planning_creates_directories_witness :
  ∃ st,
    plan_tasks scenario_catalog ["Linux"] empty_world = Ok st ∧
    fs (plan_world st) !! "downloads/Linux/Python" = Some NDir ∧
    fs (world_of (download_files scenario_catalog ["Linux"] 0 all_complete []
                    empty_world)) !! "downloads/Linux/Python" = Some NDir.
Proof.
  destruct (planning_creates_directories scenario_catalog ["Linux"] 0
              all_complete [] empty_world) as [Htotal Hdirs].
  destruct Htotal as [st Hst].
  { intros system entry versions q d _ _ _. vm_compute. discriminate. }
  { intros system entry versions q _ _ _ _. reflexivity. }
  exists st. split; [exact Hst|].
  apply (Hdirs st "Linux" ("v1", [artifact_v1]) []);
    [exact Hst|by left|reflexivity].
Defined.

(** In an idle pool every submitted item has one completed future. *)
Lemma idle_pool_completed (max_workers : Z) (env : nat -> response)
  (futures : list task) (w0 : world) (st : pool) :
  pool_inv max_workers env futures w0 st →
  queue st = [] → running st = [] →
  (completed st).*1 ≡ₚ seq 0 (length futures) ∧
  succeeded (completed st) + failed (completed st) = length futures.
Proof.
  intros Hinv Hq Hr.
  assert ((completed st).*1 ≡ₚ seq 0 (length futures)) as Hperm.
  { pose proof (inv_indices _ _ _ _ _ Hinv) as Hi.
    unfold started in Hi. by rewrite Hq, Hr in Hi. }
  split; [done|].
  rewrite succeeded_failed_length, <- (length_fmap fst), Hperm.
  apply length_seq.
Qed.

(** C5: a destination of the plan that exists when planning begins gets
    the "already present" notice and no task; the tally, when there is
    one, counts the planned tasks only; and what is at that path is the
    same after download_files as before, however the call ends.  In the
    scenario with the artifact already there, the plan is the manifest
    task alone. *)
Theorem existing_destination_is_skipped
  (versions_data : catalog) (systems : list string) (max_workers : Z)
  (env : nat -> response) (sched : list nat) (w : world) (p name : string) :
  (p, name) ∈ destinations versions_data systems →
  is_Some (fs w !! p) →
  (∀ st, plan_tasks versions_data systems w = Ok st →
     (∃ evs, out (plan_world st) = out w ++ evs ∧ EvSkip name ∈ evs) ∧
     (∀ t, t ∈ sha_tasks st ++ download_tasks st → task_path t ≠ p) ∧
     (∀ w', download_files versions_data systems max_workers env sched w
            = Returned w' →
        last (out w') = Some EvNothing ∨
        ∃ s f, last (out w') = Some (EvSummary s f) ∧
               s + f = length (sha_tasks st ++ download_tasks st))) ∧
  fs (world_of (download_files versions_data systems max_workers env sched w))
    !! p = fs w !! p ∧
  plan_tasks scenario_catalog ["Linux"] artifact_present
  = Ok {| sha_tasks := [manifest_v1]; download_tasks := [];
          plan_world := thread_safe_print (EvSkip "py-v1-x86_64.tar.gz")
                          artifact_present |}.
Proof.
  intros Hdest [n Hn].
  pose proof (plan_tasks_spec versions_data systems w) as Hspec.
  assert (∀ st, plan_tasks versions_data systems w = Ok st →
            ∀ t, t ∈ sha_tasks st ++ download_tasks st → task_path t ≠ p)
    as Hnotask.
  { intros st Hplan t Ht Hp.
    destruct (plan_tasks_pending _ _ _ _ Hplan) as [Hpend _].
    destruct (Hpend t Ht) as [Hnone _]. congruence. }
  split; [|split].
  - intros st Hplan. rewrite Hplan in Hspec.
    destruct Hspec as [[_ _ _ (evs & Ho & _ & Hskip) _] _]. simpl in *.
    split; [|split].
    + exists evs. split; [done|]. by eapply Hskip.
    + by apply Hnotask.
    + intros w' Hret.
      apply download_files_returned in Hret as (st' & Hplan' & Hcases).
      rewrite Hplan in Hplan'. injection Hplan' as <-.
      destruct Hcases as [[_ ->]|(_ & _ & final & _ & Hinv & Hq & Hr & ->)].
      * left. apply last_snoc.
      * right. eexists _, _. split; [apply last_snoc|].
        by apply (idle_pool_completed _ _ _ _ _ Hinv).
  - unfold download_files.
    destruct (plan_tasks versions_data systems w) as [st|e w'] eqn:Hplan.
    + destruct Hspec as [[_ _ Hg _ _] _]. simpl in *.
      destruct (download_files_world _ _ max_workers env sched _ _ Hplan)
        as [_ Hframe].
      unfold download_files in Hframe. rewrite Hplan in Hframe.
      rewrite Hframe by by apply Hnotask.
      rewrite Hn. by eapply fs_grows_keeps.
    + destruct Hspec as (_ & Hg & _). simpl.
      rewrite Hn. by eapply fs_grows_keeps.
  - reflexivity.
Qed.

Lemma existing_destination_is_skipped_witness :
  is_Some (fs artifact_present !! "downloads/Linux/Python/py-v1-x86_64.tar.gz") ∧
  fs (world_of (download_files scenario_catalog ["Linux"] 8 all_complete []
                  artifact_present))
    !! "downloads/Linux/Python/py-v1-x86_64.tar.gz"
  = fs artifact_present !! "downloads/Linux/Python/py-v1-x86_64.tar.gz".
Proof.
  assert (is_Some (fs artifact_present
                     !! "downloads/Linux/Python/py-v1-x86_64.tar.gz")) as Hp.
  { exists (NFile "old"). reflexivity. }
  split; [exact Hp|].
  apply (existing_destination_is_skipped scenario_catalog ["Linux"] 8
           all_complete [] artifact_present
           "downloads/Linux/Python/py-v1-x86_64.tar.gz" "py-v1-x86_64.tar.gz");
    [|exact Hp].
  right. left.
Defined.

(** ** A run in which every transfer succeeds *)

Section AllSucceed.
Variables (max_workers : Z) (env : nat -> response).
Variables (futures : list task) (w0 : world).
Hypothesis workers_positive : (0 < max_workers)%Z.
Hypothesis all_succeed :
  ∀ i t, futures !! i = Some t → fst (snd (run_task (env i) t w0)) = true.

Lemma kept_perform (a : action) (st : pool) :
  pool_inv max_workers env futures w0 st → keeps_files futures w0 st →
  keeps_files futures w0 (perform env a st).
Proof.
  intros Hinv [Hk Hc]. destruct a as [|slot]; simpl.
  { by destruct (queue st). }
  destruct (running st !! slot) as [[i t]|] eqn:Hs; [|done].
  assert (futures !! i = Some t) as Hit.
  { apply (inv_pending _ _ _ _ _ Hinv). apply elem_of_app. right.
    by eapply list_elem_of_lookup_2. }
  assert (fst (snd (run_task (env i) t (pool_world st))) = true) as Hok.
  { rewrite (run_task_same_outcome _ _ _ w0);
      [by apply all_succeed|apply (inv_dirs _ _ _ _ _ Hinv)]. }
  destruct (run_task_success _ _ _ Hok) as [Hnew Hold].
  destruct (run_task (env i) t (pool_world st)) as [w res]. simpl in *.
  split.
  - intros p Hp. by apply Hold, Hk.
  - intros j r' t' Hj Hjt. apply elem_of_app in Hj as [Hj|Hj].
    + apply Hold. by eapply Hc.
    + apply list_elem_of_singleton in Hj. injection Hj as -> ->.
      rewrite Hit in Hjt. by injection Hjt as <-.
Qed.

Lemma kept_run (sched : list nat) (steps : nat) (st : pool) :
  pool_inv max_workers env futures w0 st → keeps_files futures w0 st →
  keeps_files futures w0 (pool_run max_workers env sched steps st).
Proof.
  revert sched st. induction steps as [|n IH]; intros sched st Hinv Hk;
    [done|].
  simpl. apply IH; [by apply inv_step|].
  destruct (pool_step_cases max_workers env workers_positive (hd 0 sched) st)
    as [[-> _]|[[_ ->]|(slot & _ & ->)]]; [done| |]; by apply kept_perform.
Qed.

(** When the pool is idle again every destination of a task exists,
    next to everything that existed before. *)
Lemma all_succeed_final (sha_tasks download_tasks : list task)
  (sched : list nat) :
  futures = sha_tasks ++ download_tasks →
  let final := pool_run max_workers env sched (2 * length futures)
                 (submit_all sha_tasks download_tasks w0) in
  (∀ p, is_Some (fs w0 !! p) → is_Some (fs (pool_world final) !! p)) ∧
  (∀ t, t ∈ futures → is_Some (fs (pool_world final) !! task_path t)).
Proof.
  intros Hf final.
  assert (pool_inv max_workers env futures w0
            (submit_all sha_tasks download_tasks w0)) as Hinit
    by by apply inv_submit_all.
  assert (keeps_files futures w0 final) as [Hk Hc].
  { apply kept_run; [done|]. split; [done|].
    intros i res t Hin. by apply elem_of_nil in Hin. }
  split; [done|]. intros t Ht.
  apply list_elem_of_lookup in Ht as [i Hi].
  destruct (engine_final max_workers env sha_tasks download_tasks sched w0
              workers_positive) as (Hinv & Hq & Hr & _).
  rewrite <- Hf in Hinv, Hq, Hr. fold final in Hinv, Hq, Hr.
  destruct (idle_pool_completed _ _ _ _ _ Hinv Hq Hr) as [Hperm _].
  assert (i ∈ (completed final).*1) as Hin.
  { rewrite Hperm. apply elem_of_seq. apply lookup_lt_Some in Hi. lia. }
  apply list_elem_of_fmap in Hin as ([j res] & -> & Hin).
  by eapply Hc.
Qed.
End AllSucceed.

(** ** Running twice *)

(** After a call of download_files that returned without a failed
    transfer, every destination of the catalog exists and the directories
    are in place, so planning again, in any world with the same file
    system, finds no task. *)
Lemma rerun_plans_nothing (versions_data : catalog) (systems : list string)
  (max_workers : Z) (env : nat -> response) (sched : list nat)
  (w0 w1 w1' : world) :
  download_files versions_data systems max_workers env sched w0 = Returned w1 →
  (∀ s f, last (out w1) = Some (EvSummary s f) → f = 0) →
  fs w1' = fs w1 →
  (∀ p name, (p, name) ∈ destinations versions_data systems →
     is_Some (fs w1 !! p)) ∧
  ∃ st2,
    plan_tasks versions_data systems w1' = Ok st2 ∧
    sha_tasks st2 = [] ∧ download_tasks st2 = [] ∧
    net (plan_world st2) = net w1'.
Proof.
  intros Hret Hnofail Hfs.
  apply download_files_returned in Hret as (st1 & Hplan1 & Hcases).
  pose proof (plan_tasks_spec versions_data systems w0) as Hspec1.
  rewrite Hplan1 in Hspec1. destruct Hspec1 as [_ Hready1].
  destruct (plan_tasks_pending _ _ _ _ Hplan1) as [_ Hcov1].
  assert ((∀ p name, (p, name) ∈ destinations versions_data systems →
             is_Some (fs w1 !! p)) ∧
          ready (fs w1) (folders versions_data systems)) as [Hall Hready].
  { destruct Hcases as [[Hnone ->]|(Hsome & HW & final & Hfinal & Hinv & Hq & Hr & ->)].
    - split; [|done]. intros p name Hd.
      destruct (Hcov1 p name Hd) as [Hp|(t & Ht & _)]; [done|].
      rewrite Hnone in Ht. by apply elem_of_nil in Ht.
    - set (w_prep := thread_safe_print
                       (EvPreparing
                          (length (sha_tasks st1) + length (download_tasks st1))
                          max_workers) (plan_world st1)) in *.
      assert (failed (completed final) = 0) as Hzero.
      { eapply Hnofail. apply last_snoc. }
      destruct (idle_pool_completed _ _ _ _ _ Hinv Hq Hr) as [Hperm _].
      assert (∀ i t, (sha_tasks st1 ++ download_tasks st1) !! i = Some t →
                fst (snd (run_task (env i) t w_prep)) = true) as Hok.
      { intros i t Hi.
        assert (i ∈ (completed final).*1) as Hin.
        { rewrite Hperm. apply elem_of_seq. apply lookup_lt_Some in Hi. lia. }
        apply list_elem_of_fmap in Hin as ([j res] & -> & Hin). simpl in *.
        destruct (inv_outcomes _ _ _ _ _ Hinv j res Hin) as (t' & Ht' & Hres).
        rewrite Hi in Ht'. injection Ht' as <-. rewrite <- Hres.
        by eapply failed_zero_all_true. }
      destruct (all_succeed_final max_workers env _ w_prep HW Hok
                  (sha_tasks st1) (download_tasks st1) sched eq_refl)
        as [Hkeep Hdone].
      rewrite <- Hfinal in Hkeep, Hdone.
      split.
      + intros p name Hd.
        destruct (Hcov1 p name Hd) as [Hp|(t & Ht & <-)].
        * by apply Hkeep.
        * by apply Hdone.
      + intros folder q Hf Hq'.
        apply (inv_dirs _ _ _ _ _ Hinv). by eapply Hready1. }
  split; [done|].
  pose proof (plan_tasks_spec versions_data systems w1') as Hspec2.
  destruct (plan_tasks versions_data systems w1') as [st2|e w2].
  - destruct Hspec2 as [[Hnet _ _ _ (sa & dl & Hsa & Hdl & Hnew & _)] _].
    simpl in *.
    assert (sa ++ dl = []) as Hempty.
    { destruct (sa ++ dl) as [|t l] eqn:E; [done|].
      destruct (Hnew t) as [Hnone Hd]; [by left|].
      destruct (Hall _ _ Hd) as [n Hn]. rewrite Hfs in Hnone. congruence. }
    apply app_eq_nil in Hempty as [-> ->].
    exists st2. by rewrite Hsa, Hdl.
  - destruct Hspec2 as ((folder & q & Hf & Hq & Hobs) & _).
    destruct Hobs as [[d Hfile]|[Hfile _]];
      rewrite Hfs, (Hready folder q Hf Hq) in Hfile; done.
Qed.

(** ** main *)

(** The catalog built from a release does not depend on the world. *)
Lemma fetch_catalog_of_release (rel : release) :
  ∃ cat,
    dict_keys cat = SYSTEMS ∧
    ∀ w, fetch_python_versions (ApiRelease rel) w
         = (send GetLatestRelease w, Some cat).
Proof.
  unfold fetch_python_versions.
  destruct (truthy (default "" (tag_name rel))); cbn [negb].
  - destruct (add_assets_inv (default [] (assets rel))
                (default "" (tag_name rel)) (default [] (assets rel))
                (map (fun sys => (sys, [])) SYSTEMS))
      as (cat & -> & Hinv); [apply catalog_inv_init|done|].
    exists cat. split; [apply Hinv|done].
  - eexists. split; [|done]. done.
Qed.

Lemma main_with_release (a : args) (rel : release) (tr : nat -> response)
  (sc : list nat) (w : world) :
  ∃ cat,
    (∀ w', fetch_python_versions (ApiRelease rel) w'
           = (send GetLatestRelease w', Some cat)) ∧
    main a {| api := ApiRelease rel; transfers := tr; schedule := sc |} w
    = match download_files cat (selected a) (arg_workers a) tr sc
              (prelude a cat w) with
      | Uncaught e w' => (w', Traceback e)
      | Returned w' => (print_stats cat (selected a) w', ExitNormal)
      end.
Proof.
  destruct (fetch_catalog_of_release rel) as (cat & Hkeys & Hfetch).
  exists cat. split; [done|].
  unfold main. cbn [api transfers schedule]. rewrite Hfetch.
  destruct cat as [|entry cat]; [done|]. done.
Qed.

Lemma print_stats_world (versions_data : catalog) (systems : list string)
  (w : world) :
  fs (print_stats versions_data systems w) = fs w ∧
  net (print_stats versions_data systems w) = net w ∧
  ∃ evs, out (print_stats versions_data systems w) = out w ++ evs.
Proof.
  unfold print_stats.
  assert (∀ w0,
            fs (fold_left (print_stat versions_data) systems w0) = fs w0 ∧
            net (fold_left (print_stat versions_data) systems w0) = net w0 ∧
            ∃ evs, out (fold_left (print_stat versions_data) systems w0)
                   = out w0 ++ evs) as Hfold.
  { induction systems as [|system systems IH]; intros w0; simpl.
    - repeat split. exists []. by rewrite app_nil_r.
    - unfold print_stat at 2 4 6.
      destruct (dict_get system versions_data) as [versions|]; [|apply IH].
      destruct (IH (print (EvStat system
                             (list_sum (map (fun e => length (snd e)) versions)))
                      w0)) as (Hf & Hn & evs & Ho).
      repeat split; [done|done|].
      eexists. rewrite Ho. simpl. by rewrite <- app_assoc. }
  destruct (Hfold (print EvStatsHeader w)) as (Hf & Hn & evs & Ho).
  repeat split; [done|done|].
  eexists. rewrite Ho. simpl. by rewrite <- app_assoc.
Qed.

(** C4 as stated fails: the artifact breaks during the first run and is
    removed; the destination directory is not empty (the manifest is
    there), the catalog is the same, and the second run transfers the
    artifact. *)
Lemma failed_file_is_transferred_on_rerun :
  snd (main linux_8 {| api := ApiRelease artifact_release;
                       transfers := artifact_fails; schedule := [] |}
         empty_world) = ExitNormal ∧
  is_Some (fs (fst (main linux_8 {| api := ApiRelease artifact_release;
                                    transfers := artifact_fails;
                                    schedule := [] |} empty_world))
             !! "downloads/Linux/Python/SHA256SUMS-v1.txt") ∧
  net (fst (main linux_8 {| api := ApiRelease artifact_release;
                            transfers := all_complete; schedule := [] |}
              (fst (main linux_8 {| api := ApiRelease artifact_release;
                                    transfers := artifact_fails;
                                    schedule := [] |} empty_world))))
  = net (fst (main linux_8 {| api := ApiRelease artifact_release;
                              transfers := artifact_fails; schedule := [] |}
                empty_world))
    ++ [GetLatestRelease;
        Retrieve "http://x/a"
          ("downloads/Linux/Python/" +:+
           "py-v1-x86_64-unknown-linux-gnu-install_only.tar.gz")].
Proof.
  split; [by vm_compute|]. split; [|by vm_compute].
  exists (NFile "bytes"). by vm_compute.
Qed.

(** C4, amended: when a first run of the pipeline ended normally and no
    summary reports a failed transfer, a second run on the same release,
    for the same platforms, sends the release request and nothing else:
    every destination exists, so no task is planned.  In any run a task is
    planned only for a destination that does not exist when planning
    begins, and a destination that exists then gets no task. *)
Theorem rerun_transfers_nothing
  (a1 a2 : args) (rel : release) (tr1 tr2 : nat -> response)
  (sc1 sc2 : list nat) (w0 w1 : world) :
  arg_system a2 = arg_system a1 →
  main a1 {| api := ApiRelease rel; transfers := tr1; schedule := sc1 |} w0
  = (w1, ExitNormal) →
  (∀ s f, EvSummary s f ∈ out w1 → f = 0) →
  (∃ w2,
     main a2 {| api := ApiRelease rel; transfers := tr2; schedule := sc2 |} w1
     = (w2, ExitNormal) ∧
     net w2 = net w1 ++ [GetLatestRelease]) ∧
  (∀ versions_data systems w st t,
     plan_tasks versions_data systems w = Ok st →
     t ∈ sha_tasks st ++ download_tasks st →
     fs w !! task_path t = None) ∧
  (∀ versions_data systems w st p,
     plan_tasks versions_data systems w = Ok st →
     is_Some (fs w !! p) →
     ∀ t, t ∈ sha_tasks st ++ download_tasks st → task_path t ≠ p).
Proof.
  intros Hsys Hrun1 Hnofail.
  assert (∀ versions_data systems w st t,
            plan_tasks versions_data systems w = Ok st →
            t ∈ sha_tasks st ++ download_tasks st →
            fs w !! task_path t = None) as Hpending.
  { intros versions_data systems w st t Hplan Ht.
    by destruct (proj1 (plan_tasks_pending _ _ _ _ Hplan) t Ht). }
  split; [|split; [done|]].
  2: { intros versions_data systems w st p Hplan [n Hn] t Ht Hp.
       rewrite <- Hp, (Hpending _ _ _ _ _ Hplan Ht) in Hn. done. }
  destruct (main_with_release a1 rel tr1 sc1 w0) as (cat & Hfetch & Hmain1).
  destruct (main_with_release a2 rel tr2 sc2 w1) as (cat' & Hfetch' & Hmain2).
  assert (cat' = cat) as ->.
  { specialize (Hfetch w0). rewrite Hfetch' in Hfetch. by injection Hfetch. }
  assert (selected a2 = selected a1) as Hsel by (unfold selected; by rewrite Hsys).
  rewrite Hmain1 in Hrun1.
  destruct (download_files cat (selected a1) (arg_workers a1) tr1 sc1
              (prelude a1 cat w0)) as [w1'|e w1'] eqn:Hdl; [|done].
  injection Hrun1 as <-.
  destruct (print_stats_world cat (selected a1) w1') as (Hfs & Hnet & evs & Hout).
  destruct (rerun_plans_nothing cat (selected a1) (arg_workers a1) tr1 sc1
              (prelude a1 cat w0) w1'
              (prelude a2 cat (print_stats cat (selected a1) w1')) Hdl)
    as (_ & st2 & Hplan2 & Hsha & Hdls & Hnet2).
  { intros s f Hlast. apply (Hnofail s f). rewrite Hout.
    apply elem_of_app. left. by apply last_Some_elem_of. }
  { done. }
  rewrite Hmain2, Hsel. unfold download_files.
  rewrite Hplan2, Hsha, Hdls. cbn [length Nat.add Nat.eqb].
  eexists. split; [done|].
  destruct (print_stats_world cat (selected a1)
              (thread_safe_print EvNothing (plan_world st2))) as (_ & -> & _).
  cbn [net thread_safe_print]. rewrite Hnet2. done.
Qed.

Lemma rerun_transfers_nothing_witness :
  ∃ w2,
    main linux_8 {| api := ApiRelease artifact_release;
                    transfers := artifact_fails; schedule := [] |}
      (fst (main linux_8 {| api := ApiRelease artifact_release;
                            transfers := all_complete; schedule := [] |}
              empty_world))
    = (w2, ExitNormal) ∧
    net w2
    = net (fst (main linux_8 {| api := ApiRelease artifact_release;
                                transfers := all_complete; schedule := [] |}
                  empty_world))
      ++ [GetLatestRelease].
Proof.
  apply (rerun_transfers_nothing linux_8 linux_8 artifact_release
           all_complete artifact_fails [] [] empty_world).
  - reflexivity.
  - vm_compute. reflexivity.
  - intros s f H. vm_compute in H.
    repeat (apply elem_of_cons in H as [H|H]; [by simplify_eq|]).
    by apply elem_of_nil in H.
Defined.

(** ** The scenario *)

Lemma scenario_paths_off_chain :
  ("downloads/Linux/Python/SHA256SUMS-v1.txt"
     ∉ path_chain "downloads/Linux/Python") ∧
  ("downloads/Linux/Python/py-v1-x86_64.tar.gz"
     ∉ path_chain "downloads/Linux/Python").
Proof.
  split; intros H; vm_compute in H;
    repeat (apply elem_of_cons in H as [H|H]; [discriminate|]);
    by apply elem_of_nil in H.
Qed.

Lemma scenario_plan (w w1 : world) :
  os_makedirs "downloads/Linux/Python" w = (w1, None) →
  fs w1 !! "downloads/Linux/Python/SHA256SUMS-v1.txt" = None →
  fs w1 !! "downloads/Linux/Python/py-v1-x86_64.tar.gz" = None →
  plan_tasks scenario_catalog ["Linux"] w
  = Ok {| sha_tasks := [manifest_v1]; download_tasks := [artifact_task_v1];
          plan_world := w1 |}.
Proof.
  intros Hmk Hsha Hart.
  unfold plan_tasks. cbn [for_each]. unfold plan_system.
  change (dict_get "Linux" scenario_catalog) with (Some [("v1", [artifact_v1])]).
  cbn [for_each]. unfold plan_version.
  change (folder_of "Linux") with "downloads/Linux/Python".
  cbn [plan_world]. rewrite Hmk.
  change (os_path_join "downloads/Linux/Python" [sha_name "v1"])
    with "downloads/Linux/Python/SHA256SUMS-v1.txt".
  unfold os_path_exists at 1. rewrite Hsha. cbn [negb fold_left].
  unfold plan_item. cbn [plan_world filename artifact_v1].
  change (os_path_join "downloads/Linux/Python" ["py-v1-x86_64.tar.gz"])
    with "downloads/Linux/Python/py-v1-x86_64.tar.gz".
  unfold os_path_exists. rewrite Hart. reflexivity.
Qed.

(** C3: for the catalog of the scenario and the selection Linux, in a
    world where neither destination exists (and the directory can be had:
    no regular file is in its way and the creation of what is missing of
    it is not refused), the plan is the manifest task followed by the
    artifact task; when the network completes both transfers, whatever
    the positive bound and the interleaving, download_files returns and
    its summary is success_count = 2, failed_count = 0. *)
Theorem scenario_plans_two_tasks
  (max_workers : Z) (env : nat -> response) (sched : list nat) (w : world) :
  (0 < max_workers)%Z →
  (∀ q d, q ∈ path_chain "downloads/Linux/Python" → fs w !! q ≠ Some (NFile d)) →
  (∀ q, q ∈ path_chain "downloads/Linux/Python" →
     fs w !! q = None → mkdir_refused w !! q = None) →
  fs w !! "downloads/Linux/Python/SHA256SUMS-v1.txt" = None →
  fs w !! "downloads/Linux/Python/py-v1-x86_64.tar.gz" = None →
  (∃ d, xfer (env 0) = Complete d) →
  (∃ d, xfer (env 1) = Complete d) →
  ∃ st w',
    plan_tasks scenario_catalog ["Linux"] w = Ok st ∧
    sha_tasks st = [manifest_v1] ∧
    download_tasks st = [artifact_task_v1] ∧
    length (sha_tasks st ++ download_tasks st) = 2 ∧
    download_files scenario_catalog ["Linux"] max_workers env sched w
    = Returned w' ∧
    last (out w') = Some (EvSummary 2 0).
Proof.
  intros HW Hfree Hallowed Hsha Hart [d0 H0] [d1 H1].
  destruct scenario_paths_off_chain as [Hoff1 Hoff2].
  destruct (os_makedirs_spec "downloads/Linux/Python" w)
    as (_ & _ & _ & _ & Hframe & Hr).
  destruct (os_makedirs "downloads/Linux/Python" w) as [w1 [e|]] eqn:Hmk;
    simpl in Hframe, Hr.
  { destruct Hr as (q & Hq & [[d Hd]|[Hnone [x Hx]]]).
    - by destruct (Hfree q d).
    - rewrite (Hallowed q Hq Hnone) in Hx. done. }
  assert (fs w1 !! "downloads/Linux/Python" = Some NDir) as Hdir
    by apply Hr, path_chain_last.
  assert (fs w1 !! "downloads/Linux/Python/SHA256SUMS-v1.txt" = None) as Hsha1
    by (by rewrite Hframe).
  assert (fs w1 !! "downloads/Linux/Python/py-v1-x86_64.tar.gz" = None) as Hart1
    by (by rewrite Hframe).
  pose proof (scenario_plan w w1 Hmk Hsha1 Hart1) as Hplan.
  eexists _, _. split; [exact Hplan|].
  split; [done|]. split; [done|]. split; [done|].
  unfold download_files. rewrite Hplan. cbn [sha_tasks download_tasks plan_world].
  change (Nat.eqb (length [manifest_v1] + length [artifact_task_v1]) 0)
    with false. cbv iota.
  set (w_prep := thread_safe_print _ w1).
  destruct (engine_final max_workers env [manifest_v1] [artifact_task_v1]
              sched w_prep HW) as (Hinv & Hidle & Hfree' & Heng).
  set (final := pool_run _ _ _ _ _) in *.
  destruct (idle_pool_completed _ _ _ _ _ Hinv Hidle Hfree') as [_ Hsum].
  pose proof (inv_outcomes _ _ _ _ _ Hinv) as Hout.
  assert (failed (completed final) = 0) as Hzero.
  { apply all_true_failed_zero. intros i res Hin.
    destruct (Hout i res Hin) as (t & Ht & ->).
    rewrite run_task_result. cbn [fst].
    destruct i as [|[|i]]; simpl in Ht; [| |done]; injection Ht as <-.
    - rewrite H0. unfold task_path, manifest_v1. cbn [fst snd].
      change (fs w_prep) with (fs w1).
      rewrite (open_error_in_dir _ "downloads/Linux/Python");
        [done|done|done|by rewrite Hsha1].
    - rewrite H1. unfold task_path, artifact_task_v1. cbn [fst snd].
      change (fs w_prep) with (fs w1).
      rewrite (open_error_in_dir _ "downloads/Linux/Python");
        [done|done|done|by rewrite Hart1]. }
  assert (succeeded (completed final) = 2) as Htwo.
  { rewrite Hzero in Hsum. simpl in Hsum. lia. }
  rewrite Htwo, Hzero in Heng. rewrite Heng. split; [done|].
  apply last_snoc.
Qed.

Lemma scenario_plans_two_tasks_witness :
  ∃ st w',
    plan_tasks scenario_catalog ["Linux"] empty_world = Ok st ∧
    sha_tasks st = [manifest_v1] ∧
    download_tasks st = [artifact_task_v1] ∧
    length (sha_tasks st ++ download_tasks st) = 2 ∧
    download_files scenario_catalog ["Linux"] 8 all_complete hopping empty_world
    = Returned w' ∧
    last (out w') = Some (EvSummary 2 0).
Proof.
  apply (scenario_plans_two_tasks 8 all_complete hopping empty_world).
  - lia.
  - intros q d _. vm_compute. discriminate.
  - intros q _ _. reflexivity.
  - reflexivity.
  - reflexivity.
  - exists "bytes". reflexivity.
  - exists "bytes". reflexivity.
Defined.

(** * Further properties of the code *)

(** ** download_single_file (lines 94-109) *)

(** X1: whatever the network and the operating system do, one call of
    download_single_file leaves every other path as it was, creates and
    removes no directory, sends exactly one request, and prints the start
    line followed by exactly one line, "done" with flag True or "failed"
    with flag False; the name it returns is the display name. *)
Theorem single_file_footprint
  (r : response) (src save_path name : string) (w : world) :
  (∀ q, q ≠ save_path →
     fs (fst (download_single_file r src save_path name w)) !! q = fs w !! q) ∧
  (∀ q, fs (fst (download_single_file r src save_path name w)) !! q = Some NDir
        ↔ fs w !! q = Some NDir) ∧
  net (fst (download_single_file r src save_path name w))
  = net w ++ [Retrieve src save_path] ∧
  ((out (fst (download_single_file r src save_path name w))
    = out w ++ [EvStart name; EvDone name] ∧
    snd (download_single_file r src save_path name w) = (true, name)) ∨
   (∃ e, out (fst (download_single_file r src save_path name w))
         = out w ++ [EvStart name; EvFail name e] ∧
         snd (download_single_file r src save_path name w) = (false, name))).
Proof.
  split; [intros q Hq; by apply single_file_frame|].
  split; [intros q; apply single_file_dirs|].
  split; [apply single_file_net|].
  unfold download_single_file, urlretrieve, os_path_exists, os_remove.
  destruct (xfer r) as [d|e|d]; simpl;
    try destruct (open_error save_path (fs w)); simpl;
    destruct (fs w !! save_path) as [[]|] eqn:E; simpl;
    rewrite ?lookup_insert_eq, ?E; simpl;
    try destruct (unlink_denied r); simpl;
    rewrite <- ?app_assoc; simpl;
    first [left; split; reflexivity | right; eexists; split; reflexivity].
Qed.

Lemma single_file_footprint_witness :
  net (fst (download_single_file broken_undeletable "http://x/a" "downloads/f"
              "f" old_file_there))
  = net old_file_there ++ [Retrieve "http://x/a" "downloads/f"].
Proof.
  exact (proj1 (proj2 (proj2
           (single_file_footprint broken_undeletable "http://x/a" "downloads/f"
              "f" old_file_there)))).
Defined.

(** X2: when the destination path is a directory the call fails whatever
    the network answers, and the file system is exactly as before: the
    transfer cannot open the path and the removal of a directory is an
    error that is swallowed. *)
Theorem directory_destination_fails
  (r : response) (src save_path name : string) (w : world) :
  fs w !! save_path = Some NDir →
  snd (download_single_file r src save_path name w) = (false, name) ∧
  fs (fst (download_single_file r src save_path name w)) = fs w.
Proof.
  intros Hdir.
  unfold download_single_file, urlretrieve, os_path_exists, os_remove.
  destruct (xfer r); simpl;
    try (destruct (open_error save_path (fs w)) eqn:Eo;
         [|by apply open_error_None in Eo]);
    simpl; rewrite ?Hdir; simpl; rewrite ?Hdir; done.
Qed.

Lemma directory_destination_fails_witness :
  snd (download_single_file all_complete_response "http://x/a" "downloads/f" "f"
         directory_in_the_way) = (false, "f") ∧
  fs (fst (download_single_file all_complete_response "http://x/a"
             "downloads/f" "f" directory_in_the_way))
  = fs directory_in_the_way.
Proof.
  apply (directory_destination_fails all_complete_response "http://x/a"
           "downloads/f" "f" directory_in_the_way).
  reflexivity.
Defined.

(** X3: a transfer that fails before it opens the destination still
    removes a regular file that was already there: the handler deletes
    whatever exists at the path, not only what this call wrote. *)
Theorem failed_transfer_removes_older_file
  (r : response) (src save_path name : string) (w : world) (e : exn)
  (old : string) :
  xfer r = FailsBeforeWrite e →
  unlink_denied r = false →
  fs w !! save_path = Some (NFile old) →
  snd (download_single_file r src save_path name w) = (false, name) ∧
  fs (fst (download_single_file r src save_path name w))
  = delete save_path (fs w).
Proof.
  intros Hx Hu Hold.
  unfold download_single_file, urlretrieve, os_path_exists, os_remove.
  rewrite Hx, Hu. simpl. rewrite Hold. simpl. by rewrite ?Hold.
Qed.

Lemma failed_transfer_removes_older_file_witness :
  snd (download_single_file refused "http://x/a" "downloads/f" "f"
         old_file_there) = (false, "f") ∧
  fs (fst (download_single_file refused "http://x/a" "downloads/f" "f"
             old_file_there))
  = delete "downloads/f" (fs old_file_there).
Proof.
  apply (failed_transfer_removes_older_file refused "http://x/a" "downloads/f"
           "f" old_file_there URLError "old"); reflexivity.
Defined.

(** ** fetch_python_versions (lines 30-91) *)

(** X4: in a catalog built from a release, a descriptor listed under a
    platform carries the marker of that platform in its file name and one
    of the two architecture labels of that platform; with both markers in
    the name, x86_64 wins. *)
Theorem catalog_labels (rel : release) (w : world) (cat : catalog)
  (system : string) (d : descriptor) :
  snd (fetch_python_versions (ApiRelease rel) w) = Some cat →
  listed cat system d →
  (system = "Linux" ∧ contains "unknown-linux-gnu" (filename d) = true ∧
   (platform d = "x86_64" ∨ platform d = "aarch64")) ∨
  (system = "macOS" ∧ contains "apple-darwin" (filename d) = true ∧
   (platform d = "x86_64" ∨ platform d = "aarch64 (Apple Silicon)")) ∨
  (system = "Windows" ∧ contains "pc-windows" (filename d) = true ∧
   (platform d = "x86_64" ∨ platform d = "i686")).
Proof.
  intros Hfetch Hd.
  destruct (fetch_release rel w) as (cat' & Heq & Hinv).
  rewrite Heq in Hfetch. injection Hfetch as ->.
  destruct (cat_filtered _ _ Hinv system d Hd)
    as (a & _ & -> & _ & _ & _ & Hcl & Hinfo).
  revert Hcl. unfold classify.
  destruct (contains "unknown-linux-gnu" (name_of a)).
  { intros [= <- Hp]. left. split; [done|]. split; [done|].
    destruct (contains "x86_64" (name_of a)); [by left|].
    destruct (contains "aarch64" (name_of a)); [by right|].
    by destruct Hinfo. }
  destruct (contains "apple-darwin" (name_of a)).
  { intros [= <- Hp]. right; left. split; [done|]. split; [done|].
    destruct (contains "x86_64" (name_of a)); [by left|].
    destruct (contains "aarch64" (name_of a)); [by right|].
    by destruct Hinfo. }
  destruct (contains "pc-windows" (name_of a)); [|done].
  intros [= <- Hp]. right; right. split; [done|]. split; [done|].
  destruct (contains "x86_64" (name_of a)); [by left|].
  destruct (contains "i686" (name_of a)); [by right|].
  by destruct Hinfo.
Qed.

Lemma catalog_labels_witness :
  ∃ cat,
    snd (fetch_python_versions (ApiRelease mixed_release) empty_world)
    = Some cat ∧
    listed cat "macOS"
      {| filename :=
           "cpython-3.12.1+20240107-aarch64-apple-darwin-install_only.tar.gz";
         platform := "aarch64 (Apple Silicon)";
         url := "http://x/m"; sha256 := None |} ∧
    contains "apple-darwin"
      "cpython-3.12.1+20240107-aarch64-apple-darwin-install_only.tar.gz" = true.
Proof.
  eexists. split; [reflexivity|].
  assert (listed
            (default [] (snd (fetch_python_versions (ApiRelease mixed_release)
                                empty_world))) "macOS"
            {| filename :=
                 "cpython-3.12.1+20240107-aarch64-apple-darwin-install_only.tar.gz";
               platform := "aarch64 (Apple Silicon)";
               url := "http://x/m"; sha256 := None |}) as Hlisted.
  { eexists _, "20240107", _. split; [right; left|]. split; by left. }
  split; [exact Hlisted|].
  destruct (catalog_labels mixed_release empty_world _ _ _ eq_refl Hlisted)
    as [(Hs & _)|[(_ & Hm & _)|(Hs & _)]]; [discriminate Hs|exact Hm|discriminate Hs].
Defined.

Lemma dict_get_set_other {V : Type} (k k' : string) (v : V) (d : dict V) :
  k' ≠ k → dict_get k' (dict_set k v d) = dict_get k' d.
Proof.
  intros Hne. induction d as [|[k0 v0] d IH]; simpl.
  - destruct (String.eqb_spec k' k); [done|done].
  - destruct (String.eqb_spec k k0) as [->|Hk]; simpl.
    + destruct (String.eqb_spec k' k0); [done|done].
    + destruct (String.eqb_spec k' k0); [done|apply IH].
Qed.

Lemma add_asset_describe (version : string) (result : catalog) (a : asset) :
  add_asset version result a =
  match describe a with
  | Some (system, d) => record_asset version system d result
  | None => Some result
  end.
Proof.
  unfold add_asset, describe. fold (name_of a). fold (address_of a).
  destruct (contains "install_only.tar.gz" (name_of a)); simpl; [|done].
  destruct (classify (name_of a)) as [[system|] info]; [|done].
  by destruct (truthy system && truthy info)%bool.
Qed.

Lemma describe_system (a : asset) (system : string) (d : descriptor) :
  describe a = Some (system, d) → system ∈ SYSTEMS.
Proof.
  unfold describe.
  destruct (contains "install_only.tar.gz" (name_of a)); [|done].
  destruct (classify (name_of a)) as [[s|] info] eqn:Hcl; [|done].
  destruct (truthy s && truthy info)%bool; [|done].
  intros [= <- _]. by eapply classify_system.
Qed.

Lemma kept_for_snoc (system : string) (payload : list asset) (a : asset) :
  kept_for system (payload ++ [a]) =
  kept_for system payload ++
  match describe a with
  | Some (s, d) => if String.eqb s system then [d] else []
  | None => []
  end.
Proof.
  unfold kept_for. rewrite omap_app. f_equal. simpl.
  destruct (describe a) as [[s d]|]; [|done].
  by destruct (String.eqb s system).
Qed.

(** Recording a descriptor appends it to the files of its platform and
    leaves the other platforms alone. *)
Lemma record_asset_under_version (version system : string) (d : descriptor)
  (result : catalog) (files : list descriptor) :
  dict_get system result = Some (under_version version files) →
  ∃ result',
    record_asset version system d result = Some result' ∧
    dict_keys result' = dict_keys result ∧
    dict_get system result' = Some (under_version version (files ++ [d])) ∧
    ∀ s, s ≠ system → dict_get s result' = dict_get s result.
Proof.
  intros Hget. unfold record_asset, dict_mem. rewrite Hget.
  destruct files as [|f files]; simpl.
  - rewrite String.eqb_refl. simpl. rewrite ?String.eqb_refl.
    eexists. split; [done|]. split; [|split].
    + apply dict_set_keys. unfold dict_mem. by rewrite Hget.
    + apply dict_get_set.
    + intros s Hs. by apply dict_get_set_other.
  - rewrite String.eqb_refl. simpl. rewrite ?String.eqb_refl.
    eexists. split; [done|]. split; [|split].
    + apply dict_set_keys. unfold dict_mem. by rewrite Hget.
    + apply dict_get_set.
    + intros s Hs. by apply dict_get_set_other.
Qed.

Lemma add_assets_kept (version : string) (todo done : list asset)
  (result : catalog) :
  dict_keys result = SYSTEMS →
  (∀ system, system ∈ SYSTEMS →
     dict_get system result
     = Some (under_version version (kept_for system done))) →
  ∃ result',
    add_assets version todo result = Some result' ∧
    dict_keys result' = SYSTEMS ∧
    ∀ system, system ∈ SYSTEMS →
      dict_get system result'
      = Some (under_version version (kept_for system (done ++ todo))).
Proof.
  revert done result. induction todo as [|a todo IH]; intros done result Hk Hg.
  { exists result. rewrite app_nil_r. done. }
  cbn [add_assets]. rewrite add_asset_describe.
  replace (done ++ a :: todo) with ((done ++ [a]) ++ todo)
    by (by rewrite <- app_assoc).
  destruct (describe a) as [[s d]|] eqn:Hdesc.
  - pose proof (describe_system _ _ _ Hdesc) as Hs.
    destruct (record_asset_under_version version s d result
                (kept_for s done) (Hg s Hs))
      as (result1 & -> & Hk1 & Hg1 & Hother).
    apply IH; [congruence|].
    intros system Hsys. rewrite kept_for_snoc, Hdesc.
    destruct (String.eqb_spec s system) as [<-|Hne]; [done|].
    rewrite app_nil_r, Hother by done. by apply Hg.
  - apply IH; [done|].
    intros system Hsys. rewrite kept_for_snoc, Hdesc, app_nil_r. by apply Hg.
Qed.

(** X5: the catalog built from a release with a non-empty tag maps every
    platform to the assets kept for it, in the order of the payload, all
    under the one version that is the tag; a platform for which no asset
    is kept maps to the empty dict. *)
Theorem catalog_is_the_kept_assets (rel : release) (w : world)
  (version system : string) :
  tag_name rel = Some version →
  version ≠ "" →
  system ∈ SYSTEMS →
  ∃ cat,
    fetch_python_versions (ApiRelease rel) w
    = (send GetLatestRelease w, Some cat) ∧
    dict_get system cat
    = Some (under_version version
              (kept_for system (default [] (assets rel)))).
Proof.
  intros Htag Hne Hsys. unfold fetch_python_versions. rewrite Htag.
  change (default "" (Some version)) with version. unfold truthy.
  destruct (String.eqb_spec version "") as [?|_]; [done|]. cbn [negb].
  destruct (add_assets_kept version (default [] (assets rel)) []
              (map (fun sys => (sys, [])) SYSTEMS))
    as (cat & -> & _ & Hcat); [done| |].
  { intros s Hs. unfold SYSTEMS in Hs.
    repeat (apply elem_of_cons in Hs as [->|Hs]; [done|]).
    by apply elem_of_nil in Hs. }
  exists cat. split; [done|]. by apply Hcat.
Qed.

Lemma catalog_is_the_kept_assets_witness :
  ∃ cat,
    fetch_python_versions (ApiRelease three_archives) empty_world
    = (send GetLatestRelease empty_world, Some cat) ∧
    dict_get "Linux" cat
    = Some [("20240107",
             [ {| filename :=
                    "cpython-3.12.1+20240107-x86_64-unknown-linux-gnu-install_only.tar.gz";
                  platform := "x86_64"; url := "http://x/l1"; sha256 := None |};
               {| filename :=
                    "cpython-3.12.1+20240107-aarch64-unknown-linux-gnu-install_only.tar.gz";
                  platform := "aarch64"; url := "http://x/l2"; sha256 := None |} ])].
Proof.
  apply (catalog_is_the_kept_assets three_archives empty_world "20240107"
           "Linux"); [reflexivity|discriminate|by left].
Defined.

(** ** The planner (lines 115-147) *)

(** X6: planning is offline and never writes a file: it sends no request,
    prints nothing but "already present" notices, and the only change to
    the file system is that paths which did not exist may have become
    directories; when os.makedirs raises, the same holds of the world
    the exception leaves behind, and already in the world planning began
    in something is in the way of the directory of a selected platform:
    on its chain a regular file sits, or a directory is missing whose
    creation the operating system refuses. *)
Theorem planning_is_offline (versions_data : catalog)
  (systems : list string) (w : world) :
  match plan_tasks versions_data systems w with
  | Ok st =>
      net (plan_world st) = net w ∧
      (∃ evs, out (plan_world st) = out w ++ evs ∧
              ∀ e, e ∈ evs → ∃ name, e = EvSkip name) ∧
      (∀ q, fs (plan_world st) !! q = fs w !! q ∨
            (fs w !! q = None ∧ fs (plan_world st) !! q = Some NDir))
  | Raised e w' =>
      net w' = net w ∧
      (∀ q, fs w' !! q = fs w !! q ∨
            (fs w !! q = None ∧ fs w' !! q = Some NDir)) ∧
      ∃ system q,
        system ∈ systems ∧ q ∈ path_chain (folder_of system) ∧
        ((∃ d, fs w !! q = Some (NFile d)) ∨
         (fs w !! q = None ∧ is_Some (mkdir_refused w !! q)))
  end.
Proof.
  pose proof (plan_tasks_spec versions_data systems w) as H.
  destruct (plan_tasks versions_data systems w) as [st|e w'].
  - destruct H as [[Hn _ Hg (evs & Ho & Hs & _) _] _]. simpl in *.
    split; [done|]. split; [by exists evs|done].
  - destruct H as (Hblocked & Hg & Hn).
    split; [done|]. split; [done|].
    apply blocked_folders in Hblocked
      as (system & _ & _ & q & Hs & _ & Hq & Hobs).
    by exists system, q.
Qed.

Lemma planning_is_offline_witness :
  net (thread_safe_print (EvSkip "py-v1-x86_64.tar.gz") artifact_present)
  = net artifact_present ∧
  ∃ evs,
    out (thread_safe_print (EvSkip "py-v1-x86_64.tar.gz") artifact_present)
    = out artifact_present ++ evs ∧
    ∀ e, e ∈ evs → ∃ name, e = EvSkip name.
Proof.
  pose proof (planning_is_offline scenario_catalog ["Linux"] artifact_present)
    as H.
  change (plan_tasks scenario_catalog ["Linux"] artifact_present)
    with (Ok {| sha_tasks := [manifest_v1]; download_tasks := [];
                plan_world := thread_safe_print (EvSkip "py-v1-x86_64.tar.gz")
                                artifact_present |}) in H.
  destruct H as (Hnet & Hout & _). split; [exact Hnet|exact Hout].
Defined.

(** Tasks are only ever appended, and what is appended is a manifest task
    of the version at hand or the artifact task of one of its files. *)
Lemma plan_item_tasks (system : string) (st : plan) (item : descriptor) :
  sha_tasks (plan_item (folder_of system) st item) = sha_tasks st ∧
  (download_tasks (plan_item (folder_of system) st item) = download_tasks st ∨
   download_tasks (plan_item (folder_of system) st item)
   = download_tasks st ++ [artifact_task system item]).
Proof.
  unfold plan_item.
  destruct (os_path_exists _ (plan_world st)); simpl;
    (split; [done|]); [by left|by right].
Qed.

Lemma plan_files_tasks (system : string) (files : list descriptor) (st : plan) :
  sha_tasks (fold_left (plan_item (folder_of system)) files st) = sha_tasks st ∧
  ∃ new,
    download_tasks (fold_left (plan_item (folder_of system)) files st)
    = download_tasks st ++ new ∧
    ∀ t, t ∈ new → ∃ item, item ∈ files ∧ t = artifact_task system item.
Proof.
  revert st. induction files as [|item files IH]; intros st; cbn [fold_left].
  { split; [done|]. exists []. rewrite app_nil_r. split; [done|].
    intros t Ht. by apply elem_of_nil in Ht. }
  destruct (IH (plan_item (folder_of system) st item)) as (Hs & new & Hd & Hn).
  destruct (plan_item_tasks system st item) as [Hs1 [Hd1|Hd1]];
    rewrite Hs, Hd, Hs1, Hd1; (split; [done|]).
  - exists new. split; [done|].
    intros t Ht. destruct (Hn t Ht) as (i & Hi & ->). exists i.
    split; [by right|done].
  - exists (artifact_task system item :: new).
    split; [by rewrite <- app_assoc|].
    intros t Ht. apply elem_of_cons in Ht as [->|Ht].
    + exists item. split; [by left|done].
    + destruct (Hn t Ht) as (i & Hi & ->). exists i. split; [by right|done].
Qed.

Lemma plan_version_tasks (system : string) (st st' : plan)
  (entry : string * list descriptor) :
  plan_version system st entry = Ok st' →
  ∃ new_sha new_dl,
    sha_tasks st' = sha_tasks st ++ new_sha ∧
    download_tasks st' = download_tasks st ++ new_dl ∧
    (∀ t, t ∈ new_sha → t = manifest_task system (fst entry)) ∧
    (∀ t, t ∈ new_dl → ∃ item, item ∈ snd entry ∧ t = artifact_task system item).
Proof.
  destruct entry as [version files]. unfold plan_version.
  destruct (os_makedirs (folder_of system) (plan_world st)) as [w1 [e|]];
    [done|].
  intros [= <-].
  match goal with |- context [fold_left _ _ ?x] => set (st1 := x) end.
  destruct (plan_files_tasks system files st1) as (Hs & new & Hd & Hn).
  rewrite Hs, Hd. subst st1.
  destruct (negb (os_path_exists _ w1)); simpl.
  - exists [manifest_task system version], new. repeat split; [|done].
    intros t Ht. by apply list_elem_of_singleton in Ht.
  - exists [], new. rewrite app_nil_r. repeat split; [|done].
    intros t Ht. by apply elem_of_nil in Ht.
Qed.

Lemma plan_versions_tasks (system : string) (versions : version_map)
  (st st' : plan) :
  for_each (plan_version system) versions st = Ok st' →
  ∃ new_sha new_dl,
    sha_tasks st' = sha_tasks st ++ new_sha ∧
    download_tasks st' = download_tasks st ++ new_dl ∧
    (∀ t, t ∈ new_sha →
       ∃ version files, (version, files) ∈ versions ∧
         t = manifest_task system version) ∧
    (∀ t, t ∈ new_dl →
       ∃ version files item, (version, files) ∈ versions ∧ item ∈ files ∧
         t = artifact_task system item).
Proof.
  revert st. induction versions as [|[version files] versions IH]; intros st;
    cbn [for_each].
  { intros [= <-]. exists [], []. rewrite !app_nil_r.
    repeat split; intros t Ht; by apply elem_of_nil in Ht. }
  destruct (plan_version system st (version, files)) as [st1|e w1] eqn:H1;
    [|done].
  intros Hrest.
  destruct (plan_version_tasks _ _ _ _ H1) as (s1 & d1 & Hs1 & Hd1 & Hm1 & Ha1).
  destruct (IH _ Hrest) as (s2 & d2 & Hs2 & Hd2 & Hm2 & Ha2).
  exists (s1 ++ s2), (d1 ++ d2).
  split; [by rewrite Hs2, Hs1, app_assoc|].
  split; [by rewrite Hd2, Hd1, app_assoc|]. split.
  - intros t Ht. apply elem_of_app in Ht as [Ht|Ht].
    + exists version, files. split; [by left|by apply Hm1].
    + destruct (Hm2 t Ht) as (v & f & Hv & ->). exists v, f.
      split; [by right|done].
  - intros t Ht. apply elem_of_app in Ht as [Ht|Ht].
    + destruct (Ha1 t Ht) as (item & Hi & ->). exists version, files, item.
      split; [by left|done].
    + destruct (Ha2 t Ht) as (v & f & item & Hv & Hi & ->).
      exists v, f, item. split; [by right|done].
Qed.

Lemma plan_systems_tasks (versions_data : catalog) (systems : list string)
  (st st' : plan) :
  for_each (plan_system versions_data) systems st = Ok st' →
  ∃ new_sha new_dl,
    sha_tasks st' = sha_tasks st ++ new_sha ∧
    download_tasks st' = download_tasks st ++ new_dl ∧
    (∀ t, t ∈ new_sha →
       ∃ system versions version files,
         system ∈ systems ∧ dict_get system versions_data = Some versions ∧
         (version, files) ∈ versions ∧ t = manifest_task system version) ∧
    (∀ t, t ∈ new_dl →
       ∃ system versions version files item,
         system ∈ systems ∧ dict_get system versions_data = Some versions ∧
         (version, files) ∈ versions ∧ item ∈ files ∧
         t = artifact_task system item).
Proof.
  revert st. induction systems as [|system systems IH]; intros st;
    cbn [for_each].
  { intros [= <-]. exists [], []. rewrite !app_nil_r.
    repeat split; intros t Ht; by apply elem_of_nil in Ht. }
  destruct (plan_system versions_data st system) as [st1|e w1] eqn:H1; [|done].
  intros Hrest.
  destruct (IH _ Hrest) as (s2 & d2 & Hs2 & Hd2 & Hm2 & Ha2).
  assert (∃ s1 d1,
            sha_tasks st1 = sha_tasks st ++ s1 ∧
            download_tasks st1 = download_tasks st ++ d1 ∧
            (∀ t, t ∈ s1 →
               ∃ versions version files,
                 dict_get system versions_data = Some versions ∧
                 (version, files) ∈ versions ∧ t = manifest_task system version) ∧
            (∀ t, t ∈ d1 →
               ∃ versions version files item,
                 dict_get system versions_data = Some versions ∧
                 (version, files) ∈ versions ∧ item ∈ files ∧
                 t = artifact_task system item))
    as (s1 & d1 & Hs1 & Hd1 & Hm1 & Ha1).
  { unfold plan_system in H1.
    destruct (dict_get system versions_data) as [versions|].
    - destruct (plan_versions_tasks _ _ _ _ H1) as (s1 & d1 & ? & ? & Hm & Ha).
      exists s1, d1. repeat split; [done|done| |].
      + intros t Ht. destruct (Hm t Ht) as (v & f & ? & ?). by exists versions, v, f.
      + intros t Ht. destruct (Ha t Ht) as (v & f & i & ? & ? & ?).
        by exists versions, v, f, i.
    - injection H1 as <-. exists [], []. rewrite !app_nil_r.
      repeat split; intros t Ht; by apply elem_of_nil in Ht. }
  exists (s1 ++ s2), (d1 ++ d2).
  split; [by rewrite Hs2, Hs1, app_assoc|].
  split; [by rewrite Hd2, Hd1, app_assoc|]. split.
  - intros t Ht. apply elem_of_app in Ht as [Ht|Ht].
    + destruct (Hm1 t Ht) as (vs & v & f & ? & ? & ?).
      exists system, vs, v, f. split; [by left|done].
    + destruct (Hm2 t Ht) as (s & vs & v & f & ? & ? & ? & ?).
      exists s, vs, v, f. split; [by right|done].
  - intros t Ht. apply elem_of_app in Ht as [Ht|Ht].
    + destruct (Ha1 t Ht) as (vs & v & f & i & ? & ? & ? & ?).
      exists system, vs, v, f, i. split; [by left|done].
    + destruct (Ha2 t Ht) as (s & vs & v & f & i & ? & ? & ? & ? & ?).
      exists s, vs, v, f, i. split; [by right|done].
Qed.

(** X7: the planner makes up no task.  Every manifest task of a plan is
    the manifest task of a version that the catalog has under a selected
    platform, and every artifact task carries the address and the file
    name of a descriptor listed there; nothing is planned for a platform
    that was not selected or that the catalog does not have. *)
Theorem plan_has_only_catalog_tasks (versions_data : catalog)
  (systems : list string) (w : world) (st : plan) :
  plan_tasks versions_data systems w = Ok st →
  (∀ t, t ∈ sha_tasks st →
     ∃ system versions version files,
       system ∈ systems ∧ dict_get system versions_data = Some versions ∧
       (version, files) ∈ versions ∧ t = manifest_task system version) ∧
  (∀ t, t ∈ download_tasks st →
     ∃ system versions version files item,
       system ∈ systems ∧ dict_get system versions_data = Some versions ∧
       (version, files) ∈ versions ∧ item ∈ files ∧
       t = artifact_task system item).
Proof.
  intros Hplan.
  destruct (plan_systems_tasks _ _ _ _ Hplan) as (s & d & Hs & Hd & Hm & Ha).
  simpl in Hs, Hd. by rewrite Hs, Hd.
Qed.

Lemma plan_has_only_catalog_tasks_witness :
  ∃ system versions version files item,
    system ∈ ["Linux"] ∧ dict_get system scenario_catalog = Some versions ∧
    (version, files) ∈ versions ∧ item ∈ files ∧
    artifact_task_v1 = artifact_task system item.
Proof.
  assert (∃ st, plan_tasks scenario_catalog ["Linux"] empty_world = Ok st ∧
                artifact_task_v1 ∈ download_tasks st) as (st & Hst & Hin).
  { eexists. split; [vm_compute; reflexivity|]. by left. }
  exact (proj2 (plan_has_only_catalog_tasks scenario_catalog ["Linux"]
                  empty_world st Hst) artifact_task_v1 Hin).
Defined.

(** ** The engine (lines 159-183) *)

(** The network log of the pool is the log at the start followed by the
    requests of the completed items. *)
Lemma requests_step (max_workers : Z) (env : nat -> response)
  (futures : list task) (w0 : world) (choice : nat) (st : pool) :
  (0 < max_workers)%Z →
  pool_inv max_workers env futures w0 st →
  net (pool_world st) = net w0 ++ requests_sent futures (completed st) →
  net (pool_world (pool_step max_workers env choice st))
  = net w0 ++ requests_sent futures
                (completed (pool_step max_workers env choice st)).
Proof.
  intros HW Hinv Hnet.
  destruct (pool_step_cases max_workers env HW choice st)
    as [[-> _]|[[_ ->]|(slot & _ & ->)]]; [done| |].
  - simpl. by destruct (queue st).
  - simpl. destruct (running st !! slot) as [[i t]|] eqn:Hs; [|done].
    assert (futures !! i = Some t) as Hit.
    { apply (inv_pending _ _ _ _ _ Hinv). apply elem_of_app. right.
      by eapply list_elem_of_lookup_2. }
    pose proof (run_task_net (env i) t (pool_world st)) as Hreq.
    destruct (run_task (env i) t (pool_world st)) as [w res]. simpl in *.
    unfold requests_sent. rewrite fmap_app. simpl.
    rewrite (list_lookup_total_correct _ _ _ Hit).
    rewrite Hreq, Hnet. unfold requests_sent, request_of.
    by rewrite <- app_assoc.
Qed.

Lemma requests_run (max_workers : Z) (env : nat -> response)
  (futures : list task) (w0 : world) (sched : list nat) (steps : nat)
  (st : pool) :
  (0 < max_workers)%Z →
  pool_inv max_workers env futures w0 st →
  net (pool_world st) = net w0 ++ requests_sent futures (completed st) →
  net (pool_world (pool_run max_workers env sched steps st))
  = net w0 ++ requests_sent futures
                (completed (pool_run max_workers env sched steps st)).
Proof.
  intros HW. revert sched st.
  induction steps as [|n IH]; intros sched st Hinv Hnet; [done|].
  simpl. apply IH; [by apply inv_step|by apply requests_step].
Qed.

Lemma lookup_total_seq_fmap (futures : list task) :
  (fun i => futures !!! i) <$> seq 0 (length futures) = futures.
Proof.
  apply list_eq. intros i. rewrite list_lookup_fmap.
  destruct (decide (i < length futures)) as [Hlt|Hge].
  - rewrite lookup_seq_lt by done. simpl.
    destruct (lookup_lt_is_Some_2 _ _ Hlt) as [t Ht].
    by rewrite (list_lookup_total_correct _ _ _ Ht), Ht.
  - rewrite lookup_seq_ge by lia. simpl.
    symmetry. apply lookup_ge_None. lia.
Qed.

(** The completed futures of an idle pool are the outcomes of the items
    run alone, in some order. *)
Lemma idle_pool_outcomes (max_workers : Z) (env : nat -> response)
  (futures : list task) (w0 : world) (st : pool) :
  pool_inv max_workers env futures w0 st →
  queue st = [] → running st = [] →
  completed st ≡ₚ solo_outcomes env futures w0.
Proof.
  intros Hinv Hq Hr.
  destruct (idle_pool_completed _ _ _ _ _ Hinv Hq Hr) as [Hperm _].
  assert (completed st
          = (fun i => (i, snd (run_task (env i) (futures !!! i) w0)))
              <$> (completed st).*1) as ->.
  { rewrite <- list_fmap_compose.
    rewrite <- (list_fmap_id (completed st)) at 1.
    apply list_fmap_ext. intros k [i res] Hin. simpl.
    destruct (inv_outcomes _ _ _ _ _ Hinv i res) as (t & Ht & ->).
    { by eapply list_elem_of_lookup_2. }
    by rewrite (list_lookup_total_correct _ _ _ Ht). }
  unfold solo_outcomes. by rewrite Hperm.
Qed.

(** The requests an engine run has sent when the pool is idle again. *)
Lemma idle_pool_requests (max_workers : Z) (env : nat -> response)
  (sha_tasks download_tasks : list task) (sched : list nat) (w : world) :
  (0 < max_workers)%Z →
  net (pool_world
         (pool_run max_workers env sched
            (2 * length (sha_tasks ++ download_tasks))
            (submit_all sha_tasks download_tasks w)))
  = net w ++ requests_sent (sha_tasks ++ download_tasks)
               (completed
                  (pool_run max_workers env sched
                     (2 * length (sha_tasks ++ download_tasks))
                     (submit_all sha_tasks download_tasks w))) ∧
  requests_sent (sha_tasks ++ download_tasks)
    (completed
       (pool_run max_workers env sched
          (2 * length (sha_tasks ++ download_tasks))
          (submit_all sha_tasks download_tasks w)))
  ≡ₚ request_of <$> (sha_tasks ++ download_tasks).
Proof.
  intros HW.
  destruct (engine_final max_workers env sha_tasks download_tasks sched w HW)
    as (Hinv & Hq & Hr & _).
  set (futures := sha_tasks ++ download_tasks) in *.
  set (final := pool_run _ _ _ _ _) in *.
  split.
  - subst final. apply (requests_run max_workers env futures w); [done| |].
    + by apply inv_submit_all.
    + simpl. by rewrite app_nil_r.
  - destruct (idle_pool_completed _ _ _ _ _ Hinv Hq Hr) as [Hperm _].
    transitivity (request_of <$> ((fun i => futures !!! i)
                                     <$> (completed final).*1)).
    { unfold requests_sent. rewrite <- !list_fmap_compose. reflexivity. }
    rewrite Hperm. by rewrite lookup_total_seq_fmap.
Qed.

(** X8: no transfer is retried and none is skipped by the engine: the
    requests it sends are one per submitted task, no more and no other,
    in the order in which the tasks finish. *)
Theorem engine_sends_one_request_per_task
  (max_workers : Z) (env : nat -> response)
  (sha_tasks download_tasks : list task) (sched : list nat) (w : world) :
  (0 < max_workers)%Z →
  ∃ w' reqs,
    download_engine sha_tasks download_tasks max_workers env sched w
    = Returned w' ∧
    net w' = net w ++ reqs ∧
    reqs ≡ₚ request_of <$> (sha_tasks ++ download_tasks).
Proof.
  intros HW.
  destruct (engine_final max_workers env sha_tasks download_tasks sched w HW)
    as (_ & _ & _ & ->).
  destruct (idle_pool_requests max_workers env sha_tasks download_tasks sched
              w HW) as [Hnet Hperm].
  eexists _, _. split; [done|]. split; [exact Hnet|exact Hperm].
Qed.

Lemma engine_sends_one_request_per_task_witness :
  ∃ w' reqs,
    download_engine one_manifest nine_artifacts 3 flaky hopping tree_ready
    = Returned w' ∧
    net w' = net tree_ready ++ reqs ∧
    reqs ≡ₚ request_of <$> (one_manifest ++ nine_artifacts).
Proof.
  apply (engine_sends_one_request_per_task 3 flaky one_manifest nine_artifacts
           hopping tree_ready).
  lia.
Defined.

(** X9: the totals do not depend on the interleaving or on the number of
    workers: for every positive bound and every schedule the summary
    counts the tasks that succeed, respectively fail, when run alone in
    the world the engine starts in. *)
Theorem summary_is_schedule_independent
  (max_workers : Z) (env : nat -> response)
  (sha_tasks download_tasks : list task) (sched : list nat) (w : world) :
  (0 < max_workers)%Z →
  ∃ w',
    download_engine sha_tasks download_tasks max_workers env sched w
    = Returned w' ∧
    last (out w')
    = Some (EvSummary
              (succeeded (solo_outcomes env (sha_tasks ++ download_tasks) w))
              (failed (solo_outcomes env (sha_tasks ++ download_tasks) w))).
Proof.
  intros HW.
  destruct (engine_final max_workers env sha_tasks download_tasks sched w HW)
    as (Hinv & Hq & Hr & ->).
  eexists. split; [done|].
  pose proof (idle_pool_outcomes _ _ _ _ _ Hinv Hq Hr) as Hperm.
  unfold succeeded, failed. rewrite <- Hperm.
  apply last_snoc.
Qed.

Lemma summary_is_schedule_independent_witness :
  ∃ w',
    download_engine one_manifest nine_artifacts 3 flaky hopping tree_ready
    = Returned w' ∧
    last (out w') = Some (EvSummary 5 5).
Proof.
  apply (summary_is_schedule_independent 3 flaky one_manifest nine_artifacts
           hopping tree_ready).
  lia.
Defined.

(** ** download_files and main (lines 112-233) *)

(** X10: a worker count that is not positive is detected only when the
    pool is built.  When something is planned, download_files has by then
    created the directories and announced the downloads; it ends in
    ValueError without having sent a request.  When nothing is planned
    the count is never looked at and the call returns. *)
Theorem non_positive_workers (versions_data : catalog)
  (systems : list string) (max_workers : Z) (env : nat -> response)
  (sched : list nat) (w : world) (st : plan) :
  (max_workers ≤ 0)%Z →
  plan_tasks versions_data systems w = Ok st →
  (sha_tasks st ++ download_tasks st ≠ [] →
   download_files versions_data systems max_workers env sched w
   = Uncaught ValueError
       (thread_safe_print
          (EvPreparing (length (sha_tasks st) + length (download_tasks st))
             max_workers) (plan_world st)) ∧
   net (plan_world st) = net w ∧
   ready (fs (plan_world st)) (folders versions_data systems)) ∧
  (sha_tasks st ++ download_tasks st = [] →
   download_files versions_data systems max_workers env sched w
   = Returned (thread_safe_print EvNothing (plan_world st))).
Proof.
  intros HW Hplan.
  pose proof (plan_tasks_spec versions_data systems w) as Hspec.
  rewrite Hplan in Hspec. destruct Hspec as [[Hnet _ _ _ _] Hready].
  unfold download_files. rewrite Hplan. split.
  - intros Hsome.
    destruct (Nat.eqb_spec (length (sha_tasks st) + length (download_tasks st)) 0)
      as [Hz|_].
    { destruct Hsome. apply nil_length_inv. by rewrite length_app. }
    unfold download_engine.
    destruct (Z.leb_spec max_workers 0); [done|lia].
  - intros Hnone. apply (f_equal length) in Hnone.
    rewrite length_app in Hnone. simpl in Hnone. by rewrite Hnone.
Qed.

Lemma non_positive_workers_witness :
  ∃ w',
    download_files scenario_catalog ["Linux"] 0 all_complete [] empty_world
    = Uncaught ValueError w' ∧
    net w' = [] ∧
    fs w' !! "downloads/Linux/Python" = Some NDir.
Proof.
  assert (∃ st, plan_tasks scenario_catalog ["Linux"] empty_world = Ok st ∧
                sha_tasks st ++ download_tasks st ≠ [])
    as (st & Hst & Hsome).
  { eexists. split; [vm_compute; reflexivity|]. discriminate. }
  destruct (non_positive_workers scenario_catalog ["Linux"] 0 all_complete []
              empty_world st) as [Hraise _]; [lia|exact Hst|].
  destruct (Hraise Hsome) as (Hdl & Hnet & Hready).
  eexists. split; [exact Hdl|]. split; [exact Hnet|].
  apply (Hready "downloads/Linux/Python"); [by left|].
  right; right; left.
Defined.

(** In a working directory where nothing may be created, a run with a
    release at hand and a positive worker count ends in the traceback of
    the PermissionError that os.makedirs raises, before any transfer. *)
Lemma read_only_directory_ends_in_traceback :
  snd (main linux_8 {| api := ApiRelease artifact_release;
                       transfers := all_complete; schedule := [] |}
         read_only_world) = Traceback PermissionError ∧
  net (fst (main linux_8 {| api := ApiRelease artifact_release;
                            transfers := all_complete; schedule := [] |}
              read_only_world)) = [GetLatestRelease] ∧
  fs (fst (main linux_8 {| api := ApiRelease artifact_release;
                           transfers := all_complete; schedule := [] |}
             read_only_world)) = ∅.
Proof. by vm_compute. Qed.

(** X11: with a release at hand, a positive worker count and the
    directories of the selected platforms to be had (no regular file is
    in their way, and the operating system refuses the creation of none
    of the directories missing on their chains), main returns normally
    whatever the transfers do: failed downloads show in the summary and
    never in the exit status. *)
Theorem transfer_failures_do_not_fail_the_run
  (a : args) (rel : release) (tr : nat -> response) (sc : list nat)
  (w : world) :
  (0 < arg_workers a)%Z →
  (∀ system q d, system ∈ selected a → q ∈ path_chain (folder_of system) →
     fs w !! q ≠ Some (NFile d)) →
  (∀ system q, system ∈ selected a → q ∈ path_chain (folder_of system) →
     fs w !! q = None → mkdir_refused w !! q = None) →
  snd (main a {| api := ApiRelease rel; transfers := tr; schedule := sc |} w)
  = ExitNormal ∧
  exit_status
    (snd (main a {| api := ApiRelease rel; transfers := tr; schedule := sc |} w))
  = 0%Z.
Proof.
  intros HW Hfree Hallowed.
  destruct (main_with_release a rel tr sc w) as (cat & _ & ->).
  assert (∃ w', download_files cat (selected a) (arg_workers a) tr sc
                  (prelude a cat w) = Returned w') as [w' ->].
  { unfold download_files.
    pose proof (plan_tasks_spec cat (selected a) (prelude a cat w)) as Hspec.
    destruct (plan_tasks cat (selected a) (prelude a cat w)) as [st|e w1].
    - destruct (Nat.eqb _ 0); [by eauto|].
      destruct (engine_final (arg_workers a) tr (sha_tasks st)
                  (download_tasks st) sc
                  (thread_safe_print
                     (EvPreparing
                        (length (sha_tasks st) + length (download_tasks st))
                        (arg_workers a)) (plan_world st)) HW)
        as (_ & _ & _ & ->).
      by eauto.
    - destruct Hspec as (Hblocked & _).
      apply blocked_folders in Hblocked
        as (system & _ & _ & q & Hs & _ & Hq & Hobs).
      destruct Hobs as [[d Hfile]|[Hnone [x Hx]]].
      + by destruct (Hfree system q d).
      + assert (mkdir_refused w !! q = None) as Hno
          by by apply (Hallowed system).
        change (mkdir_refused (prelude a cat w)) with (mkdir_refused w) in Hx.
        by rewrite Hno in Hx. }
  done.
Qed.

Lemma transfer_failures_do_not_fail_the_run_witness :
  snd (main linux_8 {| api := ApiRelease artifact_release;
                       transfers := artifact_fails; schedule := [] |}
         empty_world) = ExitNormal.
Proof.
  apply (transfer_failures_do_not_fail_the_run linux_8 artifact_release
           artifact_fails [] empty_world).
  - reflexivity.
  - intros system q d _ _. vm_compute. discriminate.
  - intros system q _ _ _. reflexivity.
Defined.

(** X12: where a file of a known platform is saved.  A file name that
    does not begin with a separator is saved directly under
    downloads/<platform>/Python; one that does begin with a separator
    replaces the whole path, so the file is saved outside the download
    tree. *)
Theorem destination_of_a_file_name (system name : string) :
  system ∈ SYSTEMS →
  (startswith name "/" = false →
   os_path_join (folder_of system) [name]
   = "downloads/" +:+ system +:+ "/Python/" +:+ name) ∧
  (startswith name "/" = true →
   os_path_join (folder_of system) [name] = name).
Proof.
  intros Hs. unfold SYSTEMS in Hs.
  repeat (apply elem_of_cons in Hs as [->|Hs];
          [split; intros Hn; unfold os_path_join, folder_of; simpl;
           unfold path_join2 at 1; rewrite Hn; reflexivity|]).
  by apply elem_of_nil in Hs.
Qed.

Lemma destination_of_a_file_name_witness :
  os_path_join (folder_of "macOS") ["/etc/passwd"] = "/etc/passwd" ∧
  os_path_join (folder_of "macOS") ["a.tar.gz"] = "downloads/macOS/Python/a.tar.gz".
Proof.
  destruct (destination_of_a_file_name "macOS" "/etc/passwd") as [_ Habs];
    [right; left|].
  destruct (destination_of_a_file_name "macOS" "a.tar.gz") as [Hrel _];
    [right; left|].
  split; [apply Habs; reflexivity|apply Hrel; reflexivity].
Defined.

(** X13: what main prints as the catalog.  For a catalog whose keys are
    the three platforms, selecting all of them prints the catalog itself,
    and selecting one prints that platform's entry alone. *)
Theorem printed_catalog (versions_data : catalog) :
  dict_keys versions_data = SYSTEMS →
  filter_systems versions_data SYSTEMS = versions_data ∧
  ∀ system versions,
    dict_get system versions_data = Some versions →
    filter_systems versions_data [system] = [(system, versions)].
Proof.
  intros Hk. split.
  - destruct versions_data as [|[k1 v1] [|[k2 v2] [|[k3 v3] [|]]]];
      try discriminate Hk.
    injection Hk as -> -> ->. reflexivity.
  - intros system versions Hget. unfold filter_systems. simpl.
    by rewrite Hget.
Qed.

Lemma printed_catalog_witness :
  filter_systems scenario_catalog SYSTEMS = scenario_catalog ∧
  filter_systems scenario_catalog ["Linux"] = [("Linux", [("v1", [artifact_v1])])].
Proof.
  destruct (printed_catalog scenario_catalog eq_refl) as [Hall Hone].
  split; [exact Hall|]. apply Hone. reflexivity.
Defined.

(** What download_files leaves behind, however it ends: the requests it
    has sent are transfers to destinations that did not exist when it
    began, and every path that existed then holds what it held. *)
Lemma download_files_footprint (versions_data : catalog)
  (systems : list string) (max_workers : Z) (env : nat -> response)
  (sched : list nat) (w : world) :
  (∃ reqs,
     net (world_of (download_files versions_data systems max_workers env
                      sched w)) = net w ++ reqs ∧
     ∀ r, r ∈ reqs → ∃ src dst, r = Retrieve src dst ∧ fs w !! dst = None) ∧
  (∀ p, is_Some (fs w !! p) →
     fs (world_of (download_files versions_data systems max_workers env
                     sched w)) !! p = fs w !! p).
Proof.
  pose proof (plan_tasks_spec versions_data systems w) as Hspec.
  destruct (plan_tasks versions_data systems w) as [st|e w1] eqn:Hplan.
  - destruct Hspec as [[Hnet _ Hg _ _] _]. simpl in Hnet, Hg.
    destruct (plan_tasks_pending _ _ _ _ Hplan) as [Hpend _].
    split.
    + unfold download_files. rewrite Hplan.
      destruct (Nat.eqb _ 0).
      { exists []. rewrite app_nil_r. split; [done|].
        intros r Hr. by apply elem_of_nil in Hr. }
      destruct (Z.ltb_spec 0 max_workers) as [HW|HW].
      * set (w_prep := thread_safe_print _ (plan_world st)).
        destruct (engine_final max_workers env (sha_tasks st)
                    (download_tasks st) sched w_prep HW) as (_ & _ & _ & ->).
        destruct (idle_pool_requests max_workers env (sha_tasks st)
                    (download_tasks st) sched w_prep HW) as [Hreqs Hperm].
        eexists. split; [cbn [world_of]; by rewrite <- Hnet|].
        intros r Hr. rewrite Hperm in Hr.
        apply list_elem_of_fmap in Hr as (t & -> & Ht).
        exists (fst (fst t)), (task_path t). split; [done|].
        by destruct (Hpend t Ht).
      * unfold download_engine.
        destruct (Z.leb_spec max_workers 0); [|lia].
        exists []. rewrite app_nil_r. split; [done|].
        intros r Hr. by apply elem_of_nil in Hr.
    + intros p [n Hn].
      destruct (download_files_world _ _ max_workers env sched _ _ Hplan)
        as [_ Hframe].
      rewrite Hframe.
      * rewrite Hn. by eapply fs_grows_keeps.
      * intros t Ht Hp. destruct (Hpend t Ht) as [Hnone _]. congruence.
  - destruct Hspec as (_ & Hg & Hnet).
    unfold download_files. rewrite Hplan. simpl. split.
    + exists []. rewrite app_nil_r. split; [done|].
      intros r Hr. by apply elem_of_nil in Hr.
    + intros p [n Hn]. rewrite Hn. by eapply fs_grows_keeps.
Qed.

(** X14: a run of main never overwrites, truncates or removes anything
    that exists when it starts, whatever the release request answers, the
    transfers do and the worker count is: every path that exists at the
    start holds the same node at the end. *)
Theorem main_preserves_what_exists (a : args) (env : environment)
  (w : world) (p : string) :
  is_Some (fs w !! p) →
  fs (fst (main a env w)) !! p = fs w !! p.
Proof.
  intros Hp. destruct env as [[e|rel] tr sc].
  - reflexivity.
  - destruct (main_with_release a rel tr sc w) as (cat & _ & ->).
    destruct (download_files_footprint cat (selected a) (arg_workers a) tr sc
                (prelude a cat w)) as [_ Hkeep].
    specialize (Hkeep p Hp).
    destruct (download_files cat (selected a) (arg_workers a) tr sc
                (prelude a cat w)) as [w'|e w']; simpl in *; [|done].
    by rewrite (proj1 (print_stats_world cat (selected a) w')).
Qed.

Lemma main_preserves_what_exists_witness :
  fs (fst (main linux_8 {| api := ApiRelease artifact_release;
                           transfers := artifact_fails; schedule := [] |}
             old_file_there)) !! "downloads/f"
  = fs old_file_there !! "downloads/f".
Proof.
  apply (main_preserves_what_exists linux_8
           {| api := ApiRelease artifact_release; transfers := artifact_fails;
              schedule := [] |} old_file_there "downloads/f").
  exists (NFile "old"). reflexivity.
Defined.

(** X15: the network traffic of a run of main is the release request,
    sent first and once, followed only by transfers, each to a
    destination that did not exist when the run started; when the release
    request fails nothing follows it. *)
Theorem main_network_trace (a : args) (env : environment) (w : world) :
  ∃ reqs,
    net (fst (main a env w)) = net w ++ GetLatestRelease :: reqs ∧
    (∀ r, r ∈ reqs → ∃ src dst, r = Retrieve src dst ∧ fs w !! dst = None) ∧
    (∀ e, api env = ApiFails e → reqs = []).
Proof.
  destruct env as [[e|rel] tr sc].
  - exists []. split; [reflexivity|]. split; [|done].
    intros r Hr. by apply elem_of_nil in Hr.
  - destruct (main_with_release a rel tr sc w) as (cat & _ & ->).
    destruct (download_files_footprint cat (selected a) (arg_workers a) tr sc
                (prelude a cat w)) as [(reqs & Hnet & Hreqs) _].
    exists reqs. split; [|split; [done|done]].
    destruct (download_files cat (selected a) (arg_workers a) tr sc
                (prelude a cat w)) as [w'|e w']; simpl in *.
    + rewrite (proj1 (proj2 (print_stats_world cat (selected a) w'))), Hnet.
      by rewrite <- app_assoc.
    + rewrite Hnet. by rewrite <- app_assoc.
Qed.

Lemma main_network_trace_witness :
  ∃ reqs,
    net (fst (main linux_8 {| api := ApiFails URLError;
                              transfers := all_complete; schedule := [] |}
                empty_world))
    = net empty_world ++ GetLatestRelease :: reqs ∧
    reqs = [].
Proof.
  destruct (main_network_trace linux_8
              {| api := ApiFails URLError; transfers := all_complete;
                 schedule := [] |} empty_world)
    as (reqs & Hnet & _ & Hnone).
  exists reqs. split; [exact Hnet|]. apply (Hnone URLError). reflexivity.
Defined.

(** ** Distinct destinations *)

(** What a call leaves at its own destination depends on the world only
    through what was at that destination and through which paths are
    directories. *)
Lemma run_task_local (r : response) (t : task) (w w' : world) :
  (∀ q, fs w !! q = Some NDir ↔ fs w' !! q = Some NDir) →
  fs w !! task_path t = fs w' !! task_path t →
  fs (fst (run_task r t w)) !! task_path t
  = fs (fst (run_task r t w')) !! task_path t.
Proof.
  destruct t as [[src p] name]. unfold task_path, run_task. simpl.
  intros Hd Hl.
  assert (open_error p (fs w) = None ↔ open_error p (fs w') = None) as Ho.
  { split; apply open_error_dirs; [done|]. intros q. symmetry. apply Hd. }
  unfold download_single_file, urlretrieve, os_path_exists, os_remove. simpl.
  destruct (open_error p (fs w)) as [e1|], (open_error p (fs w')) as [e2|];
    try (by destruct Ho as [H1 H2];
            (specialize (H1 eq_refl) || specialize (H2 eq_refl)));
    destruct (xfer r); simpl; rewrite <- ?Hl;
    destruct (fs w !! p) as [[]|] eqn:E; simpl;
    rewrite ?lookup_insert_eq, <- ?Hl, ?E; simpl;
    try destruct (unlink_denied r); simpl;
    rewrite ?lookup_delete_eq, ?lookup_insert_eq, <- ?Hl, ?E; done.
Qed.

Section DistinctDestinations.
Variables (max_workers : Z) (env : nat -> response).
Variables (futures : list task) (w0 : world).
Hypothesis workers_positive : (0 < max_workers)%Z.
Hypothesis distinct : NoDup (task_path <$> futures).

Lemma distinct_paths (i j : nat) (t u : task) :
  futures !! i = Some t → futures !! j = Some u →
  task_path t = task_path u → i = j.
Proof.
  intros Hi Hj Hp.
  apply (NoDup_lookup _ i j (task_path t) distinct);
    rewrite list_lookup_fmap; [by rewrite Hi|by rewrite Hj, Hp].
Qed.

Lemma settled_perform (a : action) (st : pool) :
  pool_inv max_workers env futures w0 st →
  settled env futures w0 st →
  settled env futures w0 (perform env a st).
Proof.
  intros Hinv [Hdone Hrest]. destruct a as [|slot]; simpl.
  { by destruct (queue st). }
  destruct (running st !! slot) as [[i t]|] eqn:Hs; [|done].
  assert (futures !! i = Some t) as Hit.
  { apply (inv_pending _ _ _ _ _ Hinv). apply elem_of_app. right.
    by eapply list_elem_of_lookup_2. }
  assert (i ∉ (completed st).*1) as Hfresh.
  { pose proof (inv_indices _ _ _ _ _ Hinv) as Hi.
    assert (NoDup ((queue st).*1 ++ started st)) as Hnd
      by (rewrite Hi; apply NoDup_seq).
    apply NoDup_app in Hnd as (_ & _ & Hnd). unfold started in Hnd.
    apply NoDup_app in Hnd as (_ & Hdisj & _). apply Hdisj.
    apply list_elem_of_fmap. exists (i, t). split; [done|].
    by eapply list_elem_of_lookup_2. }
  assert (fs (pool_world st) !! task_path t = fs w0 !! task_path t) as Hown.
  { apply Hrest. intros j res u Hj Hju Hp.
    assert (j = i) as -> by (by eapply distinct_paths).
    apply Hfresh. apply list_elem_of_fmap. by exists (i, res). }
  pose proof (run_task_local (env i) t (pool_world st) w0
                (inv_dirs _ _ _ _ _ Hinv) Hown) as Hlocal.
  pose proof (run_task_frame (env i) t (pool_world st)) as Hframe.
  destruct (run_task (env i) t (pool_world st)) as [w res]. simpl in *.
  split.
  - intros j r' u Hj Hju. apply elem_of_app in Hj as [Hj|Hj].
    + rewrite Hframe; [by eapply Hdone|].
      intros Hp. assert (j = i) as -> by (by eapply distinct_paths).
      apply Hfresh. apply list_elem_of_fmap. by exists (i, r').
    + apply list_elem_of_singleton in Hj. injection Hj as -> ->.
      rewrite Hit in Hju. by injection Hju as <-.
  - intros p Hp. rewrite Hframe.
    + apply Hrest. intros j r' u Hj Hju. eapply Hp; [|done].
      apply elem_of_app. by left.
    + intros ->. eapply (Hp i res t); [|done|done].
      apply elem_of_app. right. by left.
Qed.

Lemma settled_run (sched : list nat) (steps : nat) (st : pool) :
  pool_inv max_workers env futures w0 st →
  settled env futures w0 st →
  settled env futures w0 (pool_run max_workers env sched steps st).
Proof.
  revert sched st. induction steps as [|n IH]; intros sched st Hinv Hk;
    [done|].
  simpl. apply IH; [by apply inv_step|].
  destruct (pool_step_cases max_workers env workers_positive (hd 0 sched) st)
    as [[-> _]|[[_ ->]|(slot & _ & ->)]]; [done| |]; by apply settled_perform.
Qed.

(** In the idle pool every destination holds what its own task leaves
    there when run alone, and every other path is untouched. *)
Lemma settled_final (sha_tasks download_tasks : list task) (sched : list nat) :
  futures = sha_tasks ++ download_tasks →
  (∀ i t, futures !! i = Some t →
     fs (pool_world
           (pool_run max_workers env sched (2 * length futures)
              (submit_all sha_tasks download_tasks w0))) !! task_path t
     = fs (fst (run_task (env i) t w0)) !! task_path t) ∧
  (∀ p, p ∉ task_path <$> futures →
     fs (pool_world
           (pool_run max_workers env sched (2 * length futures)
              (submit_all sha_tasks download_tasks w0))) !! p
     = fs w0 !! p).
Proof.
  intros Hf.
  set (final := pool_run _ _ _ _ _).
  assert (pool_inv max_workers env futures w0
            (submit_all sha_tasks download_tasks w0)) as Hinit
    by by apply inv_submit_all.
  assert (settled env futures w0 final) as [Hdone Hrest].
  { apply settled_run; [done|]. split; [|done].
    intros i res t Hin. by apply elem_of_nil in Hin. }
  destruct (engine_final max_workers env sha_tasks download_tasks sched w0
              workers_positive) as (Hinv & Hq & Hr & _).
  rewrite <- Hf in Hinv, Hq, Hr. fold final in Hinv, Hq, Hr.
  destruct (idle_pool_completed _ _ _ _ _ Hinv Hq Hr) as [Hperm _].
  split.
  - intros i t Hi.
    assert (i ∈ (completed final).*1) as Hin.
    { rewrite Hperm. apply elem_of_seq. apply lookup_lt_Some in Hi. lia. }
    apply list_elem_of_fmap in Hin as ([j res] & -> & Hin).
    by eapply Hdone.
  - intros p Hp. apply Hrest. intros i res t _ Hi <-.
    apply Hp. apply list_elem_of_fmap. exists t. split; [done|].
    by eapply list_elem_of_lookup_2.
Qed.
End DistinctDestinations.

(** X16: when the destinations of the submitted tasks are pairwise
    distinct, the file system the engine leaves does not depend on the
    interleaving or on the number of workers: every destination holds
    what its own task leaves there when run alone, and no other path is
    touched. *)
Theorem distinct_destinations_make_files_deterministic
  (max_workers max_workers' : Z) (env : nat -> response)
  (sha_tasks download_tasks : list task) (sched sched' : list nat) (w : world) :
  NoDup (task_path <$> (sha_tasks ++ download_tasks)) →
  (0 < max_workers)%Z → (0 < max_workers')%Z →
  fs (world_of (download_engine sha_tasks download_tasks max_workers env
                  sched w))
  = fs (world_of (download_engine sha_tasks download_tasks max_workers' env
                    sched' w)) ∧
  (∀ i t, (sha_tasks ++ download_tasks) !! i = Some t →
     fs (world_of (download_engine sha_tasks download_tasks max_workers env
                     sched w)) !! task_path t
     = fs (fst (run_task (env i) t w)) !! task_path t) ∧
  (∀ p, p ∉ task_path <$> (sha_tasks ++ download_tasks) →
     fs (world_of (download_engine sha_tasks download_tasks max_workers env
                     sched w)) !! p = fs w !! p).
Proof.
  intros Hnd HW HW'.
  destruct (engine_final max_workers env sha_tasks download_tasks sched w HW)
    as (_ & _ & _ & ->).
  destruct (engine_final max_workers' env sha_tasks download_tasks sched' w HW')
    as (_ & _ & _ & ->).
  cbn [world_of].
  destruct (settled_final max_workers env _ w HW Hnd sha_tasks download_tasks
              sched eq_refl) as [Hown Hother].
  destruct (settled_final max_workers' env _ w HW' Hnd sha_tasks download_tasks
              sched' eq_refl) as [Hown' Hother'].
  split; [|split; [exact Hown|exact Hother]].
  apply map_eq. intros p.
  destruct (decide (p ∈ task_path <$> (sha_tasks ++ download_tasks)))
    as [Hin|Hout].
  - apply list_elem_of_fmap in Hin as (t & -> & Ht).
    apply list_elem_of_lookup in Ht as [i Hi].
    change (fs (thread_safe_print ?e ?x)) with (fs x).
    by rewrite (Hown i t Hi), (Hown' i t Hi).
  - change (fs (thread_safe_print ?e ?x)) with (fs x).
    by rewrite (Hother p Hout), (Hother' p Hout).
Qed.

Lemma distinct_destinations_make_files_deterministic_witness :
  fs (world_of (download_engine one_manifest nine_artifacts 3 flaky hopping
                  tree_ready))
  = fs (world_of (download_engine one_manifest nine_artifacts 1 flaky []
                    tree_ready)).
Proof.
  apply (distinct_destinations_make_files_deterministic 3 1 flaky one_manifest
           nine_artifacts hopping [] tree_ready); [|lia|lia].
  vm_compute.
  repeat (apply NoDup_cons; split;
          [intros H; repeat (apply elem_of_cons in H as [H|H]; [discriminate|]);
           by apply elem_of_nil in H|]).
  apply NoDup_nil. done.
Defined.
